(** * TikTokDownloader: resolution-and-retrieval pipeline

    Shallow embedding of [src/index.mjs] (direct invocation) and
    [src/server.mjs] (service invocation).

    - JavaScript strings are sequences of UTF-16 code units ([jsstring]).
    - Values returned by [res.json()] and by property reads are [value]s.
    - The network and the file system are an oracle ([World]) that answers
      each request as a function of everything requested before; every
      function that awaits runs in the monad [M], which threads the trace of
      events and a possible JavaScript exception.
    - Console output is not modelled. *)

From Stdlib Require Import Ascii String DecimalString.
From Stdlib Require Import List Bool Arith NArith ZArith QArith Lia.
Import ListNotations.

Close Scope Q_scope.
Set Warnings "-register-all".

(* ------------------------------------------------------------------ *)
(** ** JavaScript strings *)

Module JsString.

(** One UTF-16 code unit. *)
Definition char16 := N.
Bind Scope N_scope with char16.

Definition jsstring := list char16.

(** An ASCII literal of the source, as code units. *)
Fixpoint lit (s : string) : jsstring :=
  match s with
  | EmptyString => []
  | String a s' => N_of_ascii a :: lit s'
  end.

Arguments lit : simpl never.

Definition char_eqb (a b : char16) : bool := N.eqb a b.

Fixpoint eqb (s t : jsstring) : bool :=
  match s, t with
  | [], [] => true
  | a :: s', b :: t' => char_eqb a b && eqb s' t'
  | _, _ => false
  end.

(** [s.startsWith(t)]. *)
Fixpoint startsWith (s t : jsstring) {struct t} : bool :=
  match t, s with
  | [], _ => true
  | b :: t', a :: s' => char_eqb a b && startsWith s' t'
  | _ :: _, [] => false
  end.

(** [s.includes(t)]: is [t] a substring of [s], code unit by code unit. *)
Fixpoint includes (s t : jsstring) : bool :=
  startsWith s t ||
  match s with
  | [] => false
  | _ :: s' => includes s' t
  end.

(** [s.substring(0, n)]. *)
Definition substring0 (n : nat) (s : jsstring) : jsstring := firstn n s.

Definition in_range (lo hi c : char16) : bool := N.leb lo c && N.leb c hi.

Definition is_upper (c : char16) : bool := in_range 65 90 c.
Definition is_lower (c : char16) : bool := in_range 97 122 c.
(** [\d] without the [u] or [i] flags: the ASCII digits. *)
Definition is_digit (c : char16) : bool := in_range 48 57 c.

Definition underscore : char16 := 95.
Definition hyphen : char16 := 45.

(** The class [[a-zA-Z0-9\-_]]. *)
Definition is_name_char (c : char16) : bool :=
  is_lower c || is_upper c || is_digit c || char_eqb c hyphen
  || char_eqb c underscore.

(** WhiteSpace and LineTerminator code units, as [String.prototype.trim]
    takes them. *)
Definition is_space (c : char16) : bool :=
  in_range 9 13 c || char_eqb c 32 || char_eqb c 160 || char_eqb c 5760
  || in_range 8192 8202 c || char_eqb c 8232 || char_eqb c 8233
  || char_eqb c 8239 || char_eqb c 8287 || char_eqb c 12288
  || char_eqb c 65279.

Fixpoint trimStart (s : jsstring) : jsstring :=
  match s with
  | [] => []
  | c :: s' => if is_space c then trimStart s' else s
  end.

Definition trimEnd (s : jsstring) : jsstring := rev (trimStart (rev s)).

(** [s.trim()]. *)
Definition trim (s : jsstring) : jsstring := trimEnd (trimStart s).

(** [`${n}`] for a non-negative integer [n]. *)
Definition of_N (n : N) : jsstring :=
  lit (NilZero.string_of_uint (N.to_uint n)).

(** ASCII lower-casing, for comparing without regard to case. *)
Definition to_lower (c : char16) : char16 :=
  if is_upper c then (c + 32)%N else c.

Definition toLowerCase (s : jsstring) : jsstring := map to_lower s.

(** *** [url.match(/video\/(\d+)/)?.[1]] *)

(** The longest run of digits at the head of [s], and what follows it. *)
Fixpoint span_digits (s : jsstring) : jsstring * jsstring :=
  match s with
  | c :: s' =>
      if is_digit c
      then let (d, r) := span_digits s' in (c :: d, r)
      else ([], s)
  | [] => ([], [])
  end.

(** [s] with the prefix [p] removed, when [s] starts with [p]. *)
Fixpoint strip_prefix (p s : jsstring) : option jsstring :=
  match p, s with
  | [], _ => Some s
  | b :: p', a :: s' => if char_eqb a b then strip_prefix p' s' else None
  | _ :: _, [] => None
  end.

(** The regular expression tried at the head of [s]: the first capture
    group when it matches there. *)
Definition match_video_here (s : jsstring) : option jsstring :=
  match strip_prefix (lit "video/") s with
  | Some r =>
      match fst (span_digits r) with
      | [] => None
      | d => Some d
      end
  | None => None
  end.

(** The leftmost match, as [String.prototype.match] finds it. *)
Fixpoint match_video (s : jsstring) : option jsstring :=
  match match_video_here s with
  | Some d => Some d
  | None =>
      match s with
      | [] => None
      | _ :: s' => match_video s'
      end
  end.

(** *** [encodeURIComponent] *)

Definition is_unreserved (c : char16) : bool :=
  is_name_char c
  || existsb (char_eqb c) (lit ".!~*'()").

Definition hex_digit (n : N) : char16 :=
  if N.ltb n 10 then (48 + n)%N else (55 + n)%N.

(** [%XX] for one byte. *)
Definition pct (b : N) : jsstring :=
  [37%N; hex_digit (N.div b 16); hex_digit (N.modulo b 16)].

(** The UTF-8 bytes of a code point. *)
Definition utf8 (cp : N) : list N :=
  if N.ltb cp 128 then [cp]
  else if N.ltb cp 2048 then
    [(192 + N.div cp 64)%N; (128 + N.modulo cp 64)%N]
  else if N.ltb cp 65536 then
    [(224 + N.div cp 4096)%N; (128 + N.modulo (N.div cp 64) 64)%N;
     (128 + N.modulo cp 64)%N]
  else
    [(240 + N.div cp 262144)%N; (128 + N.modulo (N.div cp 4096) 64)%N;
     (128 + N.modulo (N.div cp 64) 64)%N; (128 + N.modulo cp 64)%N].

Definition is_high_surrogate (c : char16) : bool := in_range 55296 56319 c.
Definition is_low_surrogate (c : char16) : bool := in_range 56320 57343 c.

Definition escape (cp : N) : jsstring := flat_map pct (utf8 cp).

(** [None] stands for the [URIError] thrown on an unpaired surrogate.
    [hi] holds a high surrogate waiting for its low half. *)
Fixpoint encode_from (hi : option char16) (s : jsstring) : option jsstring :=
  match hi, s with
  | None, [] => Some []
  | Some _, [] => None
  | None, c :: s' =>
      if is_unreserved c then option_map (cons c) (encode_from None s')
      else if is_low_surrogate c then None
      else if is_high_surrogate c then encode_from (Some c) s'
      else option_map (app (escape c)) (encode_from None s')
  | Some h, c :: s' =>
      if is_low_surrogate c
      then option_map
             (app (escape ((h - 55296) * 1024 + (c - 56320) + 65536)%N))
             (encode_from None s')
      else None
  end.

Definition encodeURIComponent (s : jsstring) : option jsstring :=
  encode_from None s.

End JsString.
Export JsString.

(* ------------------------------------------------------------------ *)
(** ** JavaScript values *)

Module JsValue.

(** What [JSON.parse] builds, and [undefined] for a property that is not
    there.  An object is the list of its own properties, each name once. *)
Inductive value : Type :=
| VUndefined
| VNull
| VBool (b : bool)
| VNum (q : Q)
| VStr (s : jsstring)
| VArr (items : list value)
| VObj (props : list (jsstring * value)).

(** [ToBoolean]. *)
Definition truthy (v : value) : bool :=
  match v with
  | VUndefined | VNull => false
  | VBool b => b
  | VNum q => negb (Z.eqb (Qnum q) 0)
  | VStr [] => false
  | VStr (_ :: _) | VArr _ | VObj _ => true
  end.

Fixpoint lookup (k : jsstring) (props : list (jsstring * value)) : value :=
  match props with
  | [] => VUndefined
  | (k', v) :: rest => if eqb k' k then v else lookup k rest
  end.

(** [v.k] for the names this program reads ([data], [play], [title],
    [msg]), none of which a string, number, boolean or array has.
    [None] stands for the [TypeError] of reading from [null] or
    [undefined]. *)
Definition get (v : value) (k : string) : option value :=
  match v with
  | VUndefined | VNull => None
  | VObj props => Some (lookup (lit k) props)
  | VBool _ | VNum _ | VStr _ | VArr _ => Some VUndefined
  end.

(** [a || b] once both operands are evaluated (the right one has no
    effect where this is used). *)
Definition js_or (a b : value) : value := if truthy a then a else b.

Definition is_the_string (x : jsstring) (v : value) : bool :=
  match v with
  | VStr s => eqb s x
  | _ => false
  end.

(** [v.includes(x)] for a string [x]: [String.prototype.includes],
    [Array.prototype.includes], or [None] for the [TypeError] of calling
    what is not a function. *)
Definition includes_of (v : value) (x : string) : option bool :=
  match v with
  | VStr s => Some (includes s (lit x))
  | VArr items => Some (existsb (is_the_string (lit x)) items)
  | _ => None
  end.

End JsValue.
Export JsValue.

(* ------------------------------------------------------------------ *)
(** ** The outside world and the monad of awaited computations *)

Module Effects.

Inductive method := GET | HEAD.

(** The arguments of one [fetch] call. *)
Record request := {
  req_url : value;
  req_method : method;
  req_user_agent : option jsstring;
  req_timeout : option N          (* AbortSignal.timeout, in ms *)
}.

Record response := {
  status : N;
  statusText : jsstring;
  content_type : option jsstring; (* headers.get('content-type') *)
  json_body : option value        (* res.json(); None when it rejects *)
}.

(** [Response.ok]: the status is in the range 200-299. *)
Definition ok (r : response) : bool :=
  N.leb 200 (status r) && N.leb (status r) 299.

Inductive fetch_result :=
| Rejects (message : jsstring)
| Responds (r : response).

(** [path.join(dir, base)] for a [base] without separators. *)
Record filepath := { dir : jsstring; base : jsstring }.

Inductive event :=
| Fetch (r : request)
| Pipe (file : filepath).   (* createWriteStream(file) and pipeline into it *)

Definition trace := list event.

(** The world answers a request knowing what was requested before.
    [pipe h f] is [None] when streaming the last response body into [f]
    completes, and the error message when it is interrupted. *)
Record World := {
  net : trace -> request -> fetch_result;
  pipe : trace -> filepath -> option jsstring
}.

Inductive error := Error (message : jsstring).

Definition message (e : error) : jsstring :=
  match e with Error m => m end.

Inductive completion (A : Type) :=
| Normal (a : A)
| Throw (e : error).
Arguments Normal {A} a.
Arguments Throw {A} e.

Definition M (A : Type) : Type := trace -> completion A * trace.

Definition ret {A} (a : A) : M A := fun h => (Normal a, h).

Definition throw {A} (e : error) : M A := fun h => (Throw e, h).

Definition bind {A B} (m : M A) (k : A -> M B) : M B :=
  fun h =>
    match m h with
    | (Normal a, h') => k a h'
    | (Throw e, h') => (Throw e, h')
    end.

(** [try { m } catch (e) { handler e }]. *)
Definition try_catch {A} (m : M A) (handler : error -> M A) : M A :=
  fun h =>
    match m h with
    | (Normal a, h') => (Normal a, h')
    | (Throw e, h') => handler e h'
    end.

(** An operation that throws a [TypeError] when it has no value. *)
Definition or_type_error {A} (o : option A) (msg : string) : M A :=
  match o with
  | Some a => ret a
  | None => throw (Error (lit msg))
  end.

Definition fetch (w : World) (r : request) : M response :=
  fun h =>
    match net w h r with
    | Rejects m => (Throw (Error m), h ++ [Fetch r])
    | Responds res => (Normal res, h ++ [Fetch r])
    end.

Definition res_json (res : response) : M value :=
  or_type_error (json_body res) "Unexpected end of JSON input".

Definition pipeline (w : World) (f : filepath) : M unit :=
  fun h =>
    match pipe w h f with
    | None => (Normal tt, h ++ [Pipe f])
    | Some m => (Throw (Error m), h ++ [Pipe f])
    end.

End Effects.
Export Effects.

Declare Scope js_scope.
Delimit Scope js_scope with js.
Notation "x <- m ;; k" := (bind m (fun x => k))
  (at level 61, m at next level, right associativity) : js_scope.
Notation "m ;;; k" := (bind m (fun _ => k))
  (at level 61, right associativity) : js_scope.
Open Scope js_scope.

(* ------------------------------------------------------------------ *)
(** ** Code shared by the two entry points *)

Module Common.

Definition USER_AGENT : jsstring :=
  lit "Mozilla/5.0 (Windows NT 10.0; Win64; x64) AppleWebKit/537.36".

(** [fetch('https://httpbin.org/status/200',
           { signal: AbortSignal.timeout(5000) })]. *)
Definition probe_request : request :=
  {| req_url := VStr (lit "https://httpbin.org/status/200");
     req_method := GET; req_user_agent := None; req_timeout := Some 5000%N |}.

(** [fetch(apiUrl, { headers: {'User-Agent': ...},
                     signal: AbortSignal.timeout(10000) })]. *)
Definition api_request (apiUrl : jsstring) : request :=
  {| req_url := VStr apiUrl; req_method := GET;
     req_user_agent := Some USER_AGENT; req_timeout := Some 10000%N |}.

(** [fetch(videoUrl, { headers: {'User-Agent': ...} })]. *)
Definition video_request (videoUrl : value) : request :=
  {| req_url := videoUrl; req_method := GET;
     req_user_agent := Some USER_AGENT; req_timeout := None |}.

(** The array literal [endpoints] of [tryTikWmAPI]; [encodeURIComponent]
    throws a [URIError] on an unpaired surrogate. *)
Definition endpoints (url : jsstring) : M (list jsstring) :=
  match encodeURIComponent url with
  | Some u =>
      ret [lit "https://tikwm.com/api/?url=" ++ u;
           lit "https://www.tikwm.com/api/?url=" ++ u]
  | None => throw (Error (lit "URI malformed"))
  end.

(** The object [{ videoUrl, title }]. *)
Record videoData := { videoUrl : value; title : value }.

(** [data.data && data.data.play]. *)
Definition data_play (data : value) : M value :=
  d <- or_type_error (get data "data") "Cannot read properties of null" ;;
  if truthy d
  then or_type_error (get d "play") "Cannot read properties of null"
  else ret d.

(** [{ videoUrl: data.data.play,
       title: data.data.title || 'tiktok_video' }]. *)
Definition data_video (data : value) : M videoData :=
  d <- or_type_error (get data "data") "Cannot read properties of null" ;;
  p <- or_type_error (get d "play") "Cannot read properties of null" ;;
  t <- or_type_error (get d "title") "Cannot read properties of null" ;;
  ret {| videoUrl := p; title := js_or t (VStr (lit "tiktok_video")) |}.

(** [url.match(/video\/(\d+)/)?.[1] || 'tiktok_video']. *)
Definition videoId (url : jsstring) : jsstring :=
  match match_video url with
  | Some d => d
  | None => lit "tiktok_video"
  end.

Definition replace_char (c : char16) : char16 :=
  if is_name_char c then c else underscore.

(** [title.replace(/[^a-zA-Z0-9\-_]/g, '_').substring(0, 50)]. *)
Definition sanitizedTitle (title : jsstring) : jsstring :=
  substring0 50 (map replace_char title).

(** [`${sanitizedTitle}_${videoId}.mp4`]. *)
Definition destinationName (title id : jsstring) : jsstring :=
  sanitizedTitle title ++ lit "_" ++ id ++ lit ".mp4".

(** [title.replace(...)] on whatever the provider sent as a title: only a
    string has the method. *)
Definition title_string (t : value) : M jsstring :=
  match t with
  | VStr s => ret s
  | _ => throw (Error (lit "title.replace is not a function"))
  end.

(** [`Video download failed: ${videoRes.status} ${videoRes.statusText}`]. *)
Definition download_failed (res : response) : jsstring :=
  lit "Video download failed: " ++ of_N (status res) ++ lit " "
  ++ statusText res.

(** From [fetch(videoUrl, ...)] to the end of [pipeline]. *)
Definition retrieve (w : World) (videoUrl : value) (fileName : filepath)
  : M unit :=
  videoRes <- fetch w (video_request videoUrl) ;;
  if negb (ok videoRes)
  then throw (Error (download_failed videoRes))
  else pipeline w fileName.

End Common.
Export Common.

(* ------------------------------------------------------------------ *)
(** ** [src/server.mjs] *)

Module Server.

(** What [tryTikWmAPI] returns: the object, one of the two strings, or
    [null]. *)
Inductive chain_result :=
| Resolved (v : videoData)
| PRIVATE
| NOT_FOUND
| NULL.

(** The [if (data.msg) { ... }] block; [None] when it falls through. *)
Definition check_msg (data : value) : M (option chain_result) :=
  msg <- or_type_error (get data "msg") "Cannot read properties of null" ;;
  if truthy msg then
    p <- or_type_error (includes_of msg "private")
           "data.msg.includes is not a function" ;;
    f <- (if p then ret true
          else or_type_error (includes_of msg "friends")
                 "data.msg.includes is not a function") ;;
    if f then ret (Some PRIVATE)
    else
      n <- or_type_error (includes_of msg "not found")
             "data.msg.includes is not a function" ;;
      d <- (if n then ret true
            else or_type_error (includes_of msg "deleted")
                   "data.msg.includes is not a function") ;;
      if d then ret (Some NOT_FOUND) else ret None
  else ret None.

Section WithWorld.
Variable w : World.

Definition testNetworkConnectivity : M bool :=
  try_catch
    (testResponse <- fetch w probe_request ;;
     ret (ok testResponse))
    (fun _ => ret false).

(** One turn of the [for] loop of [tryTikWmAPI]: [Some r] when the
    function returns [r], [None] when the loop goes on. *)
Definition try_endpoint (apiUrl : jsstring) : M (option chain_result) :=
  try_catch
    (res <- fetch w (api_request apiUrl) ;;
     if negb (ok res) then ret None
     else
       data <- res_json res ;;
       play <- data_play data ;;
       if truthy play
       then v <- data_video data ;; ret (Some (Resolved v))
       else check_msg data)
    (fun _ => ret None).

Fixpoint try_endpoints (l : list jsstring) : M chain_result :=
  match l with
  | [] => ret NULL
  | apiUrl :: rest =>
      r <- try_endpoint apiUrl ;;
      match r with
      | Some result => ret result
      | None => try_endpoints rest
      end
  end.

Definition tryTikWmAPI (url : jsstring) : M chain_result :=
  l <- endpoints url ;;
  try_endpoints l.

(** The object [downloadTikTokVideo] resolves to. *)
Inductive outcome :=
| Success (fileName : jsstring) (fullPath : filepath) (title : jsstring)
| Failure (error : jsstring).

Definition success (o : outcome) : bool :=
  match o with Success _ _ _ => true | Failure _ => false end.

Definition downloadTikTokVideo (url downloadPath : jsstring) : M outcome :=
  try_catch
    (networkOk <- testNetworkConnectivity ;;
     if negb networkOk
     then throw (Error (lit "Network connectivity issues detected"))
     else
       r <- tryTikWmAPI url ;;
       match r with
       | PRIVATE =>
           throw (Error (lit
             "This video is private or friends-only and cannot be downloaded"))
       | NOT_FOUND =>
           throw (Error (lit
             "Video not found. It may have been deleted or the URL is incorrect"))
       | NULL =>
           throw (Error (lit "Failed to fetch video data from all APIs"))
       | Resolved v =>
           t <- title_string (title v) ;;
           let name := destinationName t (videoId url) in
           let fileName := {| dir := downloadPath; base := name |} in
           retrieve w (videoUrl v) fileName ;;;
           ret (Success name fileName t)
       end)
    (fun error => ret (Failure (message error))).

(** One element of [results]: [{ url, ...result }]. *)
Record entry := { entry_url : jsstring; entry_result : outcome }.

(** [url.trim()] on an element of the request's [urls] array. *)
Definition url_trim (url : value) : M jsstring :=
  match url with
  | VStr s => ret (trim s)
  | _ => throw (Error (lit "url.trim is not a function"))
  end.

(** The body of [for (const url of urls)]: what it pushes. *)
Definition download_item (targetPath : jsstring) (url : value) : M entry :=
  t <- url_trim url ;;
  c <- (if truthy (VStr t)
        then or_type_error (includes_of url "tiktok.com")
               "url.includes is not a function"
        else ret false) ;;
  if c then
    result <- downloadTikTokVideo t targetPath ;;
    ret {| entry_url := t; entry_result := result |}
  else
    ret {| entry_url := t;
           entry_result := Failure (lit "Invalid TikTok URL") |}.

(** The loop [for (const url of urls) { ...; results.push(...) }] started
    with the array [results]. *)
Fixpoint download_loop (targetPath : jsstring) (urls : list value)
    (results : list entry) : M (list entry) :=
  match urls with
  | [] => ret results
  | url :: rest =>
      e <- download_item targetPath url ;;
      download_loop targetPath rest (results ++ [e])
  end.

(** [const results = []; for ...]. *)
Definition download_all (targetPath : jsstring) (urls : list value)
  : M (list entry) :=
  download_loop targetPath urls [].

End WithWorld.
End Server.

(* ------------------------------------------------------------------ *)
(** ** [src/index.mjs] *)

Module Index.

Section WithWorld.
Variable w : World.
(** [__dirname]. *)
Variable dirname : jsstring.

(** Returns [true], [false], or nothing at all when the response came
    back and is not ok. *)
Definition testNetworkConnectivity : M value :=
  try_catch
    (testResponse <- fetch w probe_request ;;
     if ok testResponse then ret (VBool true) else ret VUndefined)
    (fun _ => ret (VBool false)).

(** One turn of the [for] loop of [tryTikWmAPI]. *)
Definition try_endpoint (apiUrl : jsstring) : M (option videoData) :=
  try_catch
    (res <- fetch w (api_request apiUrl) ;;
     if negb (ok res) then ret None
     else
       data <- res_json res ;;
       play <- data_play data ;;
       if truthy play
       then v <- data_video data ;; ret (Some v)
       else ret None)
    (fun _ => ret None).

Fixpoint try_endpoints (l : list jsstring) : M (option videoData) :=
  match l with
  | [] => ret None
  | apiUrl :: rest =>
      r <- try_endpoint apiUrl ;;
      match r with
      | Some v => ret (Some v)
      | None => try_endpoints rest
      end
  end.

(** [null] is [None]. *)
Definition tryTikWmAPI (url : jsstring) : M (option videoData) :=
  l <- endpoints url ;;
  try_endpoints l.

Definition possibleVideoUrls (videoId : jsstring) : list jsstring :=
  [lit "https://v16-webapp.tiktok.com/video/tos/maliva/" ++ videoId
     ++ lit "/";
   lit "https://v19-webapp.tiktok.com/video/tos/maliva/" ++ videoId
     ++ lit "/"].

(** [fetch(testUrl, { method: 'HEAD',
                      signal: AbortSignal.timeout(5000) })]. *)
Definition head_request (testUrl : jsstring) : request :=
  {| req_url := VStr testUrl; req_method := HEAD;
     req_user_agent := None; req_timeout := Some 5000%N |}.

(** [response.headers.get('content-type')?.includes('video')]. *)
Definition is_video (response : response) : bool :=
  match content_type response with
  | Some ct => includes ct (lit "video")
  | None => false
  end.

(** One turn of the loop over [possibleVideoUrls]. *)
Definition try_candidate (videoId testUrl : jsstring)
  : M (option videoData) :=
  try_catch
    (response <- fetch w (head_request testUrl) ;;
     if ok response && is_video response
     then ret (Some {| videoUrl := VStr testUrl;
                       title := VStr (lit "tiktok_" ++ videoId) |})
     else ret None)
    (fun _ => ret None).

Fixpoint try_candidates (videoId : jsstring) (l : list jsstring)
  : M (option videoData) :=
  match l with
  | [] => ret None
  | testUrl :: rest =>
      r <- try_candidate videoId testUrl ;;
      match r with
      | Some v => ret (Some v)
      | None => try_candidates videoId rest
      end
  end.

Definition tryAlternativeAPI (url : jsstring) : M (option videoData) :=
  try_catch
    (match match_video url with
     | None => throw (Error (lit "Could not extract video ID from URL"))
     | Some videoId => try_candidates videoId (possibleVideoUrls videoId)
     end)
    (fun _ => ret None).

(** Resolves to [undefined] on every path; what it did is in the trace. *)
Definition downloadTikTok (url : jsstring) : M unit :=
  try_catch
    (networkOk <- testNetworkConnectivity ;;
     if negb (truthy networkOk) then ret tt
     else
       videoData <- tryTikWmAPI url ;;
       videoData <- match videoData with
                    | None => tryAlternativeAPI url
                    | Some _ => ret videoData
                    end ;;
       match videoData with
       | None => ret tt
       | Some v =>
           t <- title_string (title v) ;;
           let fileName :=
             {| dir := dirname; base := destinationName t (videoId url) |} in
           retrieve w (videoUrl v) fileName
       end)
    (fun _ => ret tt).

End WithWorld.
End Index.

(* ------------------------------------------------------------------ *)
(** ** Vocabulary of the properties *)

(** [t] occurs in [s]. *)
Definition Substring (t s : jsstring) : Prop :=
  exists a b, s = a ++ t ++ b.

(** The pattern [video\/(\d+)] matches at the head of [s]. *)
Definition MatchesHere (s : jsstring) : Prop :=
  exists c b, s = lit "video/" ++ c :: b /\ is_digit c = true.

(** The pattern matches somewhere in [s]: [video/] and then a digit. *)
Definition HasVideoSegment (s : jsstring) : Prop :=
  exists a c b, s = a ++ lit "video/" ++ c :: b /\ is_digit c = true.

(** The destination name as the specification words it: the characters
    outside the class are removed, not replaced. *)
Definition destinationName_stripping (title id : jsstring) : jsstring :=
  firstn 50 (filter is_name_char title) ++ lit "_" ++ id ++ lit ".mp4".

(** The play URL of a payload: the value of [data.data && data.data.play]
    when it is truthy. *)
Definition play_url (data : value) : option value :=
  match get data "data" with
  | Some d =>
      if truthy d then
        match get d "play" with
        | Some p => if truthy p then Some p else None
        | None => None
        end
      else None
  | None => None
  end.

(** [data.data.title], [undefined] when there is none. *)
Definition title_of (data : value) : value :=
  match get data "data" with
  | Some d =>
      match get d "title" with
      | Some t => t
      | None => VUndefined
      end
  | None => VUndefined
  end.

(** [data.msg], [undefined] when there is none. *)
Definition message_of (data : value) : value :=
  match get data "msg" with
  | Some m => m
  | None => VUndefined
  end.

(** The message names a private video. *)
Definition SaysPrivate (m : jsstring) : Prop :=
  Substring (lit "private") m \/ Substring (lit "friends") m.

(** The message names a missing video. *)
Definition SaysNotFound (m : jsstring) : Prop :=
  Substring (lit "not found") m \/ Substring (lit "deleted") m.

(** The same two tests, made without regard to case. *)
Definition SaysPrivate_ci (m : jsstring) : Prop :=
  SaysPrivate (toLowerCase m).

Definition SaysNotFound_ci (m : jsstring) : Prop :=
  SaysNotFound (toLowerCase m).

(** An answer with a play URL: a 2xx response whose JSON payload has one.
    [v] is what the chain makes of it. *)
Inductive Plays : fetch_result -> videoData -> Prop :=
| plays res data p :
    ok res = true ->
    json_body res = Some data ->
    play_url data = Some p ->
    Plays (Responds res)
      {| videoUrl := p;
         title := js_or (title_of data) (VStr (lit "tiktok_video")) |}.

(** An answer by which an endpoint abstains. *)
Inductive Abstains : fetch_result -> Prop :=
| abstains_rejected m :
    Abstains (Rejects m)
| abstains_status res :
    ok res = false ->
    Abstains (Responds res)
| abstains_malformed res :
    ok res = true ->
    json_body res = None ->
    Abstains (Responds res)
| abstains_empty res data :
    ok res = true ->
    json_body res = Some data ->
    play_url data = None ->
    truthy (message_of data) = false ->
    Abstains (Responds res)
| abstains_unknown res data m :
    ok res = true ->
    json_body res = Some data ->
    play_url data = None ->
    message_of data = VStr m ->
    ~ SaysPrivate m ->
    ~ SaysNotFound m ->
    Abstains (Responds res).

(** An answer to a HEAD probe that the fallback accepts. *)
Definition Accepted (r : fetch_result) : Prop :=
  exists res, r = Responds res /\ ok res = true
    /\ exists ct, content_type res = Some ct /\ Substring (lit "video") ct.

(** What the connectivity probe finds when it is made at the trace [h]. *)
Definition reachable (w : World) (h : trace) : bool :=
  match net w h probe_request with
  | Responds res => ok res
  | Rejects _ => false
  end.

(** The requests made by asking each endpoint of [l] in turn. *)
Definition asked_all (l : list jsstring) : trace :=
  map (fun a => Fetch (api_request a)) l.

(** Every endpoint of [l], asked in turn from the trace [h], abstains. *)
Definition AllAbstain (w : World) (h : trace) (l : list jsstring) : Prop :=
  forall pre a post, l = pre ++ a :: post ->
    Abstains (net w (h ++ asked_all pre) (api_request a)).

(* ------------------------------------------------------------------ *)
(** ** Worlds to run the program in *)

Module Worlds.

Definition response_of (st : N) (text : string) (ct : option jsstring)
    (body : option value) : response :=
  {| status := st; statusText := lit text; content_type := ct;
     json_body := body |}.

Definition respond (st : N) (text : string) (ct : option jsstring)
    (body : option value) : fetch_result :=
  Responds (response_of st text ct body).

(** A world that answers by the requested URL alone and in which every
    stream completes. *)
Definition by_url (answer : jsstring -> fetch_result) : World :=
  {| net := fun _ r =>
       match req_url r with
       | VStr u => answer u
       | _ => Rejects (lit "Failed to parse URL")
       end;
     pipe := fun _ _ => None |}.

Fixpoint assoc (table : list (jsstring * fetch_result)) (u : jsstring)
  : fetch_result :=
  match table with
  | [] => Rejects (lit "fetch failed")
  | (k, r) :: rest => if eqb k u then r else assoc rest u
  end.

Definition probe_url : jsstring := lit "https://httpbin.org/status/200".
Definition probe_ok : jsstring * fetch_result :=
  (probe_url, respond 200 "OK" None None).

Definition url0 : jsstring := lit "https://www.tiktok.com/@u/video/111".
Definition enc0 : jsstring :=
  lit "https%3A%2F%2Fwww.tiktok.com%2F%40u%2Fvideo%2F111".
Definition api1 : jsstring := lit "https://tikwm.com/api/?url=" ++ enc0.
Definition api2 : jsstring := lit "https://www.tikwm.com/api/?url=" ++ enc0.
Definition media : jsstring := lit "https://cdn.example/v.mp4".

(** A payload as the provider sends it for a public video. *)
Definition payload_play : value :=
  VObj [(lit "code", VNum 0); (lit "msg", VStr (lit "success"));
        (lit "data", VObj [(lit "play", VStr media);
                           (lit "title", VStr (lit "Hello! World??"))])].

Definition payload_msg (m : string) : value :=
  VObj [(lit "code", VNum (-1 # 1)); (lit "msg", VStr (lit m))].

Definition json (v : value) : fetch_result := respond 200 "OK" None (Some v).

(** The first endpoint is down, the second resolves. *)
Definition w_second : World :=
  by_url (assoc [probe_ok;
                 (api1, respond 503 "Service Unavailable" None None);
                 (api2, json payload_play);
                 (media, respond 200 "OK" None None)]).

(** The first endpoint reports a private video, in lower case. *)
Definition w_private : World :=
  by_url (assoc [probe_ok;
                 (api1, json (payload_msg "This video is private"));
                 (api2, json payload_play);
                 (media, respond 200 "OK" None None)]).

(** The same report with a capital letter. *)
Definition w_Private : World :=
  by_url (assoc [probe_ok;
                 (api1, json (payload_msg "This video is Private"));
                 (api2, json payload_play);
                 (media, respond 200 "OK" None None)]).

(** A payload with a play URL and a message that names a private video. *)
Definition payload_both : value :=
  VObj [(lit "msg", VStr (lit "private"));
        (lit "data", VObj [(lit "play", VStr media)])].

Definition w_both : World :=
  by_url (assoc [probe_ok; (api1, json payload_both);
                 (media, respond 200 "OK" None None)]).

(** The provider resolves and the media URL answers 404. *)
Definition w_404 : World :=
  by_url (assoc [probe_ok; (api1, json payload_play);
                 (media, respond 404 "Not Found" None None)]).

(** The provider resolves, the media URL answers 200 and the stream
    breaks. *)
Definition w_broken : World :=
  {| net := net w_second;
     pipe := fun _ _ => Some (lit "aborted") |}.

(** The probe comes back with a 503. *)
Definition w_down : World :=
  by_url (assoc [(probe_url, respond 503 "Service Unavailable" None None);
                 (api1, json payload_play);
                 (media, respond 200 "OK" None None)]).

Definition cdn1 : jsstring :=
  lit "https://v16-webapp.tiktok.com/video/tos/maliva/111/".
Definition cdn2 : jsstring :=
  lit "https://v19-webapp.tiktok.com/video/tos/maliva/111/".

(** Both endpoints are down and the first CDN candidate is a video. *)
Definition w_fallback : World :=
  by_url (assoc [probe_ok;
                 (api1, respond 500 "Internal Server Error" None None);
                 (api2, respond 500 "Internal Server Error" None None);
                 (cdn1, respond 200 "OK" (Some (lit "video/mp4")) None)]).

(** Only the second CDN candidate is a video. *)
Definition w_fallback2 : World :=
  by_url (assoc [probe_ok;
                 (api1, respond 500 "Internal Server Error" None None);
                 (api2, respond 500 "Internal Server Error" None None);
                 (cdn1, respond 200 "OK" (Some (lit "text/html")) None);
                 (cdn2, respond 200 "OK" (Some (lit "video/mp4")) None)]).

(** A short link: no [video/<digits>] in it. *)
Definition short_url : jsstring := lit "https://vm.tiktok.com/ZMabc/".
Definition short_api1 : jsstring :=
  lit "https://tikwm.com/api/?url=https%3A%2F%2Fvm.tiktok.com%2FZMabc%2F".

Definition w_short : World :=
  by_url (assoc [probe_ok; (short_api1, json payload_play);
                 (media, respond 200 "OK" None None)]).

(** A video without a caption: the title is there and is empty. *)
Definition payload_untitled : value :=
  VObj [(lit "code", VNum 0); (lit "msg", VStr (lit "success"));
        (lit "data", VObj [(lit "play", VStr media);
                           (lit "title", VStr [])])].

Definition w_untitled : World :=
  by_url (assoc [probe_ok; (api1, json payload_untitled);
                 (media, respond 200 "OK" None None)]).

End Worlds.

(* ------------------------------------------------------------------ *)
(** ** The request handler of [src/server.mjs] *)

Module Handler.

(** The three synchronous file-system calls of the handler, each made at
    most once per request. *)
Record Disk := {
  (** [fs.existsSync(p)] for a string [p]. *)
  existsSync : jsstring -> bool;
  (** [fs.mkdirSync(p, { recursive: true })] for a string [p]: [None]
      when it returns, the error message when it throws. *)
  mkdirSync : jsstring -> option jsstring;
  (** The message of the [TypeError] that [mkdirSync] throws for a path
      that is not a string. *)
  invalid_path : value -> jsstring;
  (** [fs.readFileSync(path.join(__dirname, 'index.html'), 'utf8')]:
      [None] when it throws. *)
  index_html : option jsstring
}.

(** [JSON.parse(body)]: the value, or the message of the [SyntaxError]. *)
Inductive parsed :=
| Parsed (data : value)
| SyntaxError (message : jsstring).

(** What [res.end] is given, before [JSON.stringify]. *)
Inductive body :=
| NoBody
| Text (s : jsstring)
| JsonError (error : jsstring)        (* { error } *)
| JsonResults (results : list Server.entry).  (* { results } *)

(** The status code, the headers and the body of the answer. *)
Record reply := {
  code : N;
  headers : list (jsstring * jsstring);
  content : body
}.

(** The three [res.setHeader] calls made for every request. *)
Definition cors : list (jsstring * jsstring) :=
  [(lit "Access-Control-Allow-Origin", lit "*");
   (lit "Access-Control-Allow-Methods", lit "GET, POST, OPTIONS");
   (lit "Access-Control-Allow-Headers", lit "Content-Type")].

(** [res.writeHead(c, { 'Content-Type': t }); res.end(b)]. *)
Definition send (c : N) (t : string) (b : body) : reply :=
  {| code := c; headers := cors ++ [(lit "Content-Type", lit t)];
     content := b |}.

Definition send_json (c : N) (b : body) : reply :=
  send c "application/json" b.

(** [!urls || !Array.isArray(urls) || urls.length === 0]: the elements of
    [urls] when the test is false. *)
Definition url_list (urls : value) : option (list value) :=
  match urls with
  | VArr (u :: rest) => Some (u :: rest)
  | _ => None
  end.

(** [fs.existsSync(targetPath)]: [false] for what is not a path. *)
Definition exists_path (d : Disk) (targetPath : value) : bool :=
  match targetPath with
  | VStr p => existsSync d p
  | _ => false
  end.

(** [fs.mkdirSync(targetPath, { recursive: true })]. *)
Definition make_path (d : Disk) (targetPath : value) : option jsstring :=
  match targetPath with
  | VStr p => mkdirSync d p
  | other => Some (invalid_path d other)
  end.

Section WithWorld.
Variable w : World.
Variable d : Disk.
(** [path.join(__dirname, 'downloads')]. *)
Variable default_downloads : jsstring.

(** From the directory check to the answer, inside the [try]. *)
Definition download_into (targetPath : value) (urls : list value)
  : M reply :=
  match (if exists_path d targetPath then None else make_path d targetPath)
  with
  | Some m =>
      ret (send_json 400
             (JsonError (lit "Cannot create download directory: " ++ m)))
  | None =>
      match targetPath with
      | VStr p =>
          results <- Server.download_all w p urls ;;
          ret (send_json 200 (JsonResults results))
      | other =>
          (* not reached: [make_path] throws for such a path *)
          throw (Error (invalid_path d other))
      end
  end.

(** The listener of the request's [end] event. *)
Definition api_download (request_body : parsed) : M reply :=
  try_catch
    (match request_body with
     | SyntaxError m => throw (Error m)
     | Parsed data =>
         urls <- or_type_error (get data "urls")
                   "Cannot destructure property 'urls' of 'data' as it is null." ;;
         downloadPath <- or_type_error (get data "downloadPath")
                   "Cannot destructure property 'urls' of 'data' as it is null." ;;
         match url_list urls with
         | None => ret (send_json 400 (JsonError (lit "No URLs provided")))
         | Some items =>
             download_into
               (js_or downloadPath (VStr default_downloads)) items
         end
     end)
    (fun error =>
       ret (send_json 500
              (JsonError (lit "Server error: " ++ message error)))).

(** The callback of [http.createServer], for a request with method
    [method], path [pathname] ([parse(req.url, true).pathname]) and a
    body that parses to [request_body]. *)
Definition server (method : jsstring) (pathname : value)
    (request_body : parsed) : M reply :=
  if eqb method (lit "OPTIONS") then
    ret {| code := 200; headers := cors; content := NoBody |}
  else if is_the_string (lit "/") pathname
          || is_the_string (lit "/index.html") pathname then
    match index_html d with
    | Some htmlContent => ret (send 200 "text/html" (Text htmlContent))
    | None =>
        ret (send 404 "text/plain"
               (Text (lit
                 "HTML file not found. Make sure index.html exists in the same directory.")))
    end
  else if is_the_string (lit "/api/download") pathname
          && eqb method (lit "POST") then
    api_download request_body
  else
    ret (send 404 "text/plain" (Text (lit "Not Found"))).

End WithWorld.
End Handler.

(* ------------------------------------------------------------------ *)
(** ** The script of [src/index.mjs] *)

Module Script.

Section WithWorld.
Variable w : World.
Variable dirname : jsstring.

(** The top level of the script for [process.argv[2]] ([None] when there
    is no such argument): [Some 1] for [process.exit(1)], [None] when the
    script runs to its end. *)
Definition main (inputUrl : option jsstring) : M (option N) :=
  match inputUrl with
  | None => ret (Some 1%N)
  | Some url =>
      if negb (truthy (VStr url)) then ret (Some 1%N)
      else if negb (includes url (lit "tiktok.com")) then ret (Some 1%N)
      else Index.downloadTikTok w dirname url ;;; ret None
  end.

End WithWorld.
End Script.

(* ------------------------------------------------------------------ *)
(** ** More vocabulary *)

(** The events after the chain: nothing, the retrieval GET, or the GET
    and the stream into the file. *)
Inductive RetrievalEvents : trace -> Prop :=
| retrieval_none : RetrievalEvents []
| retrieval_get target :
    RetrievalEvents [Fetch (video_request target)]
| retrieval_stream target file :
    RetrievalEvents [Fetch (video_request target); Pipe file].

(** The HEAD probes of the candidates of [l], in turn. *)
Definition probed_all (l : list jsstring) : trace :=
  map (fun c => Fetch (Index.head_request c)) l.

(** A character that may stand in a destination name: one of the class,
    or the dot of the extension. *)
Definition is_file_char (c : char16) : bool :=
  is_name_char c || char_eqb c 46.

(** Every code unit is one: none is above [0xFFFF]. *)
Definition WellSized (s : jsstring) : Prop :=
  Forall (fun c => (c < 65536)%N) s.

(** A character of an encoded component: unreserved, or the percent sign
    of an escape. *)
Definition is_component_char (c : char16) : bool :=
  is_unreserved c || char_eqb c 37.

Module Scenarios.

Import Worlds.

(** A disk on which every directory exists and can be made. *)
Definition disk_ok : Handler.Disk :=
  {| Handler.existsSync := fun _ => true;
     Handler.mkdirSync := fun _ => None;
     Handler.invalid_path := fun _ =>
       lit "The path argument must be of type string";
     Handler.index_html := Some (lit "<html></html>") |}.

(** A disk on which nothing exists and nothing can be made. *)
Definition disk_readonly : Handler.Disk :=
  {| Handler.existsSync := fun _ => false;
     Handler.mkdirSync := fun _ => Some (lit "EACCES: permission denied");
     Handler.invalid_path := fun _ =>
       lit "The path argument must be of type string";
     Handler.index_html := None |}.

(** [{ urls: [...], downloadPath: p }]. *)
Definition request_of (urls : list value) (p : value) : Handler.parsed :=
  Handler.Parsed (VObj [(lit "urls", VArr urls); (lit "downloadPath", p)]).

(** A URL that ends in half of a surrogate pair. *)
Definition broken_url : jsstring :=
  lit "https://www.tiktok.com/@u/video/111?x=" ++ [55357%N].

(** The provider sends a number as the title. *)
Definition payload_numbered : value :=
  VObj [(lit "data", VObj [(lit "play", VStr media);
                           (lit "title", VNum (7 # 1))])].

Definition w_numbered : World :=
  by_url (assoc [probe_ok; (api1, json payload_numbered);
                 (media, respond 200 "OK" None None)]).

(** The provider sends a number as the message. *)
Definition payload_code_msg : value :=
  VObj [(lit "code", VNum (-1 # 1)); (lit "msg", VNum (404 # 1))].

Definition w_code_msg : World :=
  by_url (assoc [probe_ok; (api1, json payload_code_msg);
                 (api2, json payload_play);
                 (media, respond 200 "OK" None None)]).

End Scenarios.

(* ------------------------------------------------------------------ *)
(** ** What the string functions compute *)

Section StringFacts.

Lemma char_eqb_eq (a b : char16) : char_eqb a b = true <-> a = b.
Proof. apply N.eqb_eq. Qed.

Lemma eqb_eq (s t : jsstring) : eqb s t = true <-> s = t.
Proof.
  revert t; induction s as [|a s IH]; intros [|b t]; simpl;
    try (split; [discriminate | intros E; inversion E]); try tauto.
  rewrite andb_true_iff, char_eqb_eq, IH.
  split; [intros [-> ->]; reflexivity | intros E; inversion E; auto].
Qed.

Lemma startsWith_spec (s t : jsstring) :
  startsWith s t = true <-> exists b, s = t ++ b.
Proof.
  revert s; induction t as [|c t IH]; intros s; simpl.
  - split; [intros _; exists s; reflexivity | reflexivity].
  - destruct s as [|a s].
    + split; [discriminate | intros [b E]; discriminate].
    + rewrite andb_true_iff, char_eqb_eq, IH. split.
      * intros [-> [b ->]]. exists b. reflexivity.
      * intros [b E]. inversion E. split; [reflexivity | exists b; reflexivity].
Qed.

Lemma includes_spec (s t : jsstring) :
  includes s t = true <-> Substring t s.
Proof.
  unfold Substring. induction s as [|c s IH]; simpl.
  - rewrite orb_false_r, startsWith_spec. split.
    + intros [b E]. exists [], b. exact E.
    + intros [a [b E]]. destruct a; [exists b; exact E | discriminate].
  - rewrite orb_true_iff, startsWith_spec, IH. split.
    + intros [[b E] | [a [b E]]].
      * exists [], b. exact E.
      * exists (c :: a), b. simpl. now rewrite E.
    + intros [[|x a] [b E]].
      * left. exists b. exact E.
      * right. inversion E. exists a, b. reflexivity.
Qed.

Lemma includes_false (s t : jsstring) :
  includes s t = false <-> ~ Substring t s.
Proof.
  rewrite <- includes_spec. destruct (includes s t).
  - split; [discriminate | intros H; now elim H].
  - split; [intros _; discriminate | reflexivity].
Qed.

Lemma strip_prefix_spec (p s r : jsstring) :
  strip_prefix p s = Some r <-> s = p ++ r.
Proof.
  revert s; induction p as [|b p IH]; intros s; simpl.
  - split; [intros E; inversion E; reflexivity | intros ->; reflexivity].
  - destruct s as [|a s].
    + split; discriminate.
    + destruct (char_eqb a b) eqn:E.
      * apply char_eqb_eq in E. subst. rewrite IH. split.
        -- intros ->. reflexivity.
        -- intros H. inversion H. reflexivity.
      * split; [discriminate |].
        intros H. inversion H. subst.
        assert (char_eqb b b = true) by (apply char_eqb_eq; reflexivity).
        congruence.
Qed.

Lemma span_digits_app (s : jsstring) :
  s = fst (span_digits s) ++ snd (span_digits s).
Proof.
  induction s as [|c s IH]; simpl; [reflexivity|].
  destruct (is_digit c); [|reflexivity].
  destruct (span_digits s) as [d r]. simpl in *. now rewrite <- IH.
Qed.

Lemma span_digits_digits (s : jsstring) :
  Forall (fun c => is_digit c = true) (fst (span_digits s)).
Proof.
  induction s as [|c s IH]; simpl; [constructor|].
  destruct (is_digit c) eqn:E; [|constructor].
  destruct (span_digits s) as [d r]. simpl in *. now constructor.
Qed.

(** No digit follows the captured run. *)
Lemma span_digits_rest (s : jsstring) :
  match snd (span_digits s) with
  | [] => True
  | c :: _ => is_digit c = false
  end.
Proof.
  induction s as [|c s IH]; simpl; [exact I|].
  destruct (is_digit c) eqn:E; [|exact E].
  destruct (span_digits s) as [d r]. exact IH.
Qed.

Lemma match_video_here_none (s : jsstring) :
  match_video_here s = None <-> ~ MatchesHere s.
Proof.
  unfold match_video_here, MatchesHere.
  destruct (strip_prefix (lit "video/") s) as [r|] eqn:E.
  - apply strip_prefix_spec in E. subst s.
    destruct r as [|c r]; cbn [fst span_digits].
    + split; [|reflexivity]. intros _ [c [b [H _]]].
      apply app_inv_head in H. discriminate.
    + cbn [span_digits]. destruct (is_digit c) eqn:D.
      * destruct (span_digits r). cbn [fst]. split; [discriminate|].
        intros H. elim H. exists c, r. auto.
      * cbn [fst]. split; [|reflexivity]. intros _ [c' [b [H D']]].
        apply app_inv_head in H. inversion H. congruence.
  - split; [|reflexivity]. intros _ [c [b [H _]]].
    apply strip_prefix_spec in H. congruence.
Qed.

Lemma match_video_none (s : jsstring) :
  match_video s = None <-> ~ HasVideoSegment s.
Proof.
  unfold HasVideoSegment. induction s as [|x s IH].
  - simpl. split; [|reflexivity].
    intros _ [a [c [b [H _]]]]. destruct a; discriminate.
  - cbn [match_video].
    destruct (match_video_here (x :: s)) as [d|] eqn:E.
    + split; [discriminate|]. intros H. exfalso.
      assert (N : match_video_here (x :: s) <> None) by congruence.
      rewrite match_video_here_none in N. apply N. intros [c [b [H1 H2]]].
      apply H. exists [], c, b. auto.
    + rewrite IH. apply match_video_here_none in E. split.
      * intros H [[|y a] [c [b [H1 H2]]]].
        -- apply E. exists c, b. auto.
        -- apply H. inversion H1. exists a, c, b. auto.
      * intros H [a [c [b [H1 H2]]]]. apply H.
        exists (x :: a), c, b. split; [simpl; now rewrite H1 | exact H2].
Qed.

Lemma match_video_here_some (s d : jsstring) :
  match_video_here s = Some d ->
  d <> [] /\ Forall (fun c => is_digit c = true) d
  /\ exists b, s = lit "video/" ++ d ++ b.
Proof.
  unfold match_video_here.
  destruct (strip_prefix (lit "video/") s) as [r|] eqn:E; [|discriminate].
  apply strip_prefix_spec in E. subst s.
  pose proof (span_digits_app r) as A.
  pose proof (span_digits_digits r) as D.
  destruct (fst (span_digits r)) as [|c d'] eqn:F; [discriminate|].
  intros H. inversion H. subst d. split; [discriminate|]. split; [exact D|].
  exists (snd (span_digits r)). now rewrite <- A.
Qed.

(** A captured id is a non-empty run of digits standing after [video/]. *)
Lemma match_video_some (s d : jsstring) :
  match_video s = Some d ->
  d <> [] /\ Forall (fun c => is_digit c = true) d
  /\ exists a b, s = a ++ lit "video/" ++ d ++ b.
Proof.
  induction s as [|x s IH]; cbn [match_video].
  - destruct (match_video_here []) eqn:E; [|discriminate].
    intros H. inversion H. subst. apply match_video_here_some in E.
    destruct E as [E1 [E2 [b E3]]]. repeat split; auto. exists [], b. exact E3.
  - destruct (match_video_here (x :: s)) eqn:E.
    + intros H. inversion H. subst. apply match_video_here_some in E.
      destruct E as [E1 [E2 [b E3]]]. repeat split; auto.
      exists [], b. exact E3.
    + intros H. destruct (IH H) as [E1 [E2 [a [b E3]]]].
      repeat split; auto. exists (x :: a), b. simpl. now rewrite E3.
Qed.

(** The pattern has no leading slash: [myvideo/7] matches too, and the
    leftmost match wins. *)
Example match_video_examples :
  match_video (lit "https://www.tiktok.com/@u/video/111?lang=en")
  = Some (lit "111")
  /\ match_video (lit "https://www.tiktok.com/@u/myvideo/7/video/8")
     = Some (lit "7")
  /\ match_video (lit "https://www.tiktok.com/video/x/video/12a")
     = Some (lit "12")
  /\ match_video (lit "https://vm.tiktok.com/ZMabc/") = None.
Proof. repeat split. Qed.

Example trim_example :
  trim (lit "  https://www.tiktok.com/@u/video/1 ")
  = lit "https://www.tiktok.com/@u/video/1".
Proof. reflexivity. Qed.

Example encodeURIComponent_examples :
  encodeURIComponent (lit "https://www.tiktok.com/@u/video/111?a=b c")
  = Some (lit
      "https%3A%2F%2Fwww.tiktok.com%2F%40u%2Fvideo%2F111%3Fa%3Db%20c")
  /\ encodeURIComponent [233%N] = Some (lit "%C3%A9")
  /\ encodeURIComponent [55357%N; 56832%N] = Some (lit "%F0%9F%98%80")
  /\ encodeURIComponent [55357%N] = None.
Proof. repeat split. Qed.

Example of_N_examples : of_N 404 = lit "404" /\ of_N 0 = lit "0".
Proof. split; reflexivity. Qed.

End StringFacts.

(* ------------------------------------------------------------------ *)
(** ** The descriptor *)

Section Descriptor.

Lemma replace_char_name (c : char16) : is_name_char (replace_char c) = true.
Proof.
  unfold replace_char. destruct (is_name_char c) eqn:E; [exact E | reflexivity].
Qed.

Lemma sanitizedTitle_map (title : jsstring) :
  sanitizedTitle title = map replace_char (firstn 50 title).
Proof. unfold sanitizedTitle, substring0. apply firstn_map. Qed.

Lemma sanitizedTitle_length (title : jsstring) :
  length (sanitizedTitle title) = Nat.min 50 (length title).
Proof.
  unfold sanitizedTitle, substring0.
  now rewrite length_firstn, length_map.
Qed.

Lemma sanitizedTitle_name_chars (title : jsstring) :
  Forall (fun c => is_name_char c = true) (sanitizedTitle title).
Proof.
  rewrite sanitizedTitle_map. apply Forall_forall. intros c H.
  apply in_map_iff in H. destruct H as [x [<- _]]. apply replace_char_name.
Qed.

(** C1, as the code has it: every code unit of the title outside
    [[A-Za-z0-9_-]] is replaced by an underscore (none is removed), the
    result is cut to its first 50 code units, and [_<id>.mp4] is appended.
    The sanitized part holds only characters of the class and is
    [min 50 (length title)] long, so 50 for a title of 300.  For the title
    [Hello! World??] and the id [123] the name is
    [Hello__World___123.mp4]. *)
Theorem destinationName_replaces_and_truncates (title id : jsstring) :
  destinationName title id
  = map (fun c => if is_name_char c then c else underscore) (firstn 50 title)
    ++ lit "_" ++ id ++ lit ".mp4"
  /\ length (sanitizedTitle title) = Nat.min 50 (length title)
  /\ Forall (fun c => is_name_char c = true) (sanitizedTitle title)
  /\ destinationName (lit "Hello! World??") (lit "123")
     = lit "Hello__World___123.mp4"
  /\ length (sanitizedTitle (repeat 33%N 300)) = 50.
Proof.
  split; [|split; [|split; [|split]]].
  - unfold destinationName. now rewrite sanitizedTitle_map.
  - apply sanitizedTitle_length.
  - apply sanitizedTitle_name_chars.
  - reflexivity.
  - rewrite sanitizedTitle_length, repeat_length. reflexivity.
Qed.

(** C1 as stated fails: the name of [Hello! World??] with id [123] is not
    [Hello_World_123.mp4], and not what stripping would give either. *)
Lemma destinationName_does_not_strip :
  destinationName (lit "Hello! World??") (lit "123")
    <> lit "Hello_World_123.mp4"
  /\ destinationName (lit "Hello! World??") (lit "123")
    <> destinationName_stripping (lit "Hello! World??") (lit "123")
  /\ destinationName_stripping (lit "Hello! World??") (lit "123")
    = lit "HelloWorld_123.mp4".
Proof.
  split; [|split]; [vm_compute; discriminate | vm_compute; discriminate
                   | reflexivity].
Qed.

End Descriptor.

(* ------------------------------------------------------------------ *)
(** ** Reading a payload *)

Ltac run :=
  repeat (progress
    (unfold bind, try_catch, ret, throw, or_type_error; cbn beta iota)).

Section Payload.

Lemma fetch_responds (w : World) (r : request) (h : trace) (res : response) :
  net w h r = Responds res ->
  fetch w r h = (Normal res, h ++ [Fetch r]).
Proof. intros E. unfold fetch. now rewrite E. Qed.

Lemma fetch_rejects (w : World) (r : request) (h : trace) (m : jsstring) :
  net w h r = Rejects m ->
  fetch w r h = (Throw (Error m), h ++ [Fetch r]).
Proof. intros E. unfold fetch. now rewrite E. Qed.

Lemma data_play_some (data p : value) (h : trace) :
  play_url data = Some p ->
  data_play data h = (Normal p, h) /\ truthy p = true.
Proof.
  unfold play_url, data_play. run.
  destruct (get data "data") as [d|]; [|discriminate]. run.
  destruct (truthy d); [|discriminate].
  destruct (get d "play") as [q|]; [|discriminate].
  destruct (truthy q) eqn:T; [|discriminate].
  intros E. inversion E. subst. auto.
Qed.

Lemma data_video_some (data p : value) (h : trace) :
  play_url data = Some p ->
  data_video data h
  = (Normal {| videoUrl := p;
               title := js_or (title_of data) (VStr (lit "tiktok_video")) |},
     h).
Proof.
  unfold play_url, data_video, title_of. run.
  destruct (get data "data") as [d|]; [|discriminate]. run.
  destruct (truthy d) eqn:Td; [|discriminate].
  destruct (get d "play") as [q|]; [|discriminate]. run.
  destruct (truthy q); [|discriminate].
  intros E. inversion E. subst.
  destruct (get d "title") as [t|] eqn:Gt; [reflexivity|].
  destruct d; simpl in *; discriminate.
Qed.

(** Without a play URL the test [data.data && data.data.play] is falsy,
    or throws because the payload is [null]. *)
Lemma data_play_none (data : value) (h : trace) :
  play_url data = None ->
  (exists v, data_play data h = (Normal v, h) /\ truthy v = false)
  \/ (exists e, data_play data h = (Throw e, h) /\ get data "msg" = None).
Proof.
  unfold play_url, data_play. run.
  destruct (get data "data") as [d|] eqn:G.
  - run. destruct (truthy d) eqn:Td.
    + destruct (get d "play") as [q|] eqn:Gq.
      * destruct (truthy q) eqn:Tq; [discriminate|].
        intros _. left. exists q. auto.
      * destruct d; simpl in *; discriminate.
    + intros _. left. exists d. auto.
  - intros _. right. eexists. split; [reflexivity|].
    destruct data; simpl in *; try discriminate; reflexivity.
Qed.

Lemma includes_of_str (m : jsstring) (x : string) :
  includes_of (VStr m) x = Some (includes m (lit x)).
Proof. reflexivity. Qed.

Lemma SaysPrivate_dec (m : jsstring) :
  includes m (lit "private") || includes m (lit "friends") = true
  <-> SaysPrivate m.
Proof.
  unfold SaysPrivate. now rewrite orb_true_iff, !includes_spec.
Qed.

Lemma SaysNotFound_dec (m : jsstring) :
  includes m (lit "not found") || includes m (lit "deleted") = true
  <-> SaysNotFound m.
Proof.
  unfold SaysNotFound. now rewrite orb_true_iff, !includes_spec.
Qed.

(** The message block on a string message. *)
Lemma check_msg_string (data : value) (m : jsstring) (h : trace) :
  message_of data = VStr m ->
  Server.check_msg data h
  = (Normal
       (if includes m (lit "private") || includes m (lit "friends")
        then Some Server.PRIVATE
        else if includes m (lit "not found") || includes m (lit "deleted")
             then Some Server.NOT_FOUND
             else None),
     h).
Proof.
  unfold message_of, Server.check_msg. run.
  destruct (get data "msg") as [v|]; [|discriminate].
  intros ->. run. rewrite !includes_of_str.
  destruct m as [|c m]; [reflexivity|].
  cbn [truthy].
  destruct (includes (c :: m) (lit "private")); cbn [orb].
  - reflexivity.
  - destruct (includes (c :: m) (lit "friends")); [reflexivity|].
    destruct (includes (c :: m) (lit "not found")); cbn [orb]; [reflexivity|].
    destruct (includes (c :: m) (lit "deleted")); reflexivity.
Qed.

Lemma check_msg_falsy (data : value) (h : trace) :
  get data "msg" <> None ->
  truthy (message_of data) = false ->
  Server.check_msg data h = (Normal None, h).
Proof.
  unfold message_of, Server.check_msg. run.
  destruct (get data "msg") as [v|]; [|congruence].
  run. intros _ ->. reflexivity.
Qed.

End Payload.

(* ------------------------------------------------------------------ *)
(** ** The resolver chain, one endpoint at a time *)

Section Chain.
Variable w : World.

Local Abbreviation asked a := (Fetch (api_request a)).

Lemma server_endpoint_plays (a : jsstring) (h : trace) (v : videoData) :
  Plays (net w h (api_request a)) v ->
  Server.try_endpoint w a h
  = (Normal (Some (Server.Resolved v)), h ++ [asked a]).
Proof.
  intros P. inversion P as [res data p Hok Hj Hp E1 E2]. subst.
  unfold Server.try_endpoint. run.
  rewrite (fetch_responds _ _ _ _ (eq_sym E1)), Hok. cbn [negb].
  unfold res_json. rewrite Hj. run.
  destruct (data_play_some _ _ (h ++ [asked a]) Hp) as [-> ->].
  now rewrite (data_video_some _ _ (h ++ [asked a]) Hp).
Qed.

Lemma index_endpoint_plays (a : jsstring) (h : trace) (v : videoData) :
  Plays (net w h (api_request a)) v ->
  Index.try_endpoint w a h = (Normal (Some v), h ++ [asked a]).
Proof.
  intros P. inversion P as [res data p Hok Hj Hp E1 E2]. subst.
  unfold Index.try_endpoint. run.
  rewrite (fetch_responds _ _ _ _ (eq_sym E1)), Hok. cbn [negb].
  unfold res_json. rewrite Hj. run.
  destruct (data_play_some _ _ (h ++ [asked a]) Hp) as [-> ->].
  now rewrite (data_video_some _ _ (h ++ [asked a]) Hp).
Qed.

(** A 2xx answer whose payload has no play URL: the turn ends in the
    message block, or in the [catch] when the payload is [null]. *)
Lemma server_endpoint_no_play (a : jsstring) (h : trace) (res : response)
    (data : value) :
  net w h (api_request a) = Responds res ->
  ok res = true ->
  json_body res = Some data ->
  play_url data = None ->
  Server.try_endpoint w a h
  = match get data "msg" with
    | None => (Normal None, h ++ [asked a])
    | Some _ =>
        match Server.check_msg data (h ++ [asked a]) with
        | (Normal r, h') => (Normal r, h')
        | (Throw _, h') => (Normal None, h')
        end
    end.
Proof.
  intros E Hok Hj Hp. unfold Server.try_endpoint. run.
  rewrite (fetch_responds _ _ _ _ E), Hok. cbn [negb].
  unfold res_json. rewrite Hj. run.
  destruct (data_play_none _ (h ++ [asked a]) Hp)
    as [[v [-> Tv]] | [e [-> G]]].
  - rewrite Tv. destruct (get data "msg") eqn:G; [reflexivity|].
    unfold Server.check_msg. run. now rewrite G.
  - now rewrite G.
Qed.

Lemma server_endpoint_abstains (a : jsstring) (h : trace) :
  Abstains (net w h (api_request a)) ->
  Server.try_endpoint w a h = (Normal None, h ++ [asked a]).
Proof.
  intros A.
  inversion A as [m E | res Hok E | res Hok Hj E
                 | res data Hok Hj Hp Hm E | res data m Hok Hj Hp Hm N1 N2 E];
    symmetry in E.
  - unfold Server.try_endpoint. run. now rewrite (fetch_rejects _ _ _ _ E).
  - unfold Server.try_endpoint. run.
    now rewrite (fetch_responds _ _ _ _ E), Hok.
  - unfold Server.try_endpoint. run.
    rewrite (fetch_responds _ _ _ _ E), Hok. cbn [negb].
    unfold res_json. now rewrite Hj.
  - rewrite (server_endpoint_no_play _ _ _ _ E Hok Hj Hp).
    destruct (get data "msg") eqn:G; [|reflexivity].
    rewrite check_msg_falsy; [reflexivity | congruence | exact Hm].
  - rewrite (server_endpoint_no_play _ _ _ _ E Hok Hj Hp).
    destruct (get data "msg") eqn:G.
    + rewrite (check_msg_string _ _ _ Hm).
      rewrite <- SaysPrivate_dec in N1. rewrite <- SaysNotFound_dec in N2.
      apply not_true_is_false in N1, N2. now rewrite N1, N2.
    + reflexivity.
Qed.

Lemma index_endpoint_abstains (a : jsstring) (h : trace) :
  Abstains (net w h (api_request a)) ->
  Index.try_endpoint w a h = (Normal None, h ++ [asked a]).
Proof.
  assert (NP : forall res data,
    net w h (api_request a) = Responds res -> ok res = true ->
    json_body res = Some data -> play_url data = None ->
    Index.try_endpoint w a h = (Normal None, h ++ [asked a])).
  { intros res data E Hok Hj Hp. unfold Index.try_endpoint. run.
    rewrite (fetch_responds _ _ _ _ E), Hok. cbn [negb].
    unfold res_json. rewrite Hj. run.
    destruct (data_play_none _ (h ++ [asked a]) Hp)
      as [[v [-> Tv]] | [e [-> G]]]; [now rewrite Tv | reflexivity]. }
  intros A.
  inversion A as [m E | res Hok E | res Hok Hj E
                 | res data Hok Hj Hp Hm E | res data m Hok Hj Hp Hm N1 N2 E];
    symmetry in E; eauto.
  - unfold Index.try_endpoint. run. now rewrite (fetch_rejects _ _ _ _ E).
  - unfold Index.try_endpoint. run.
    now rewrite (fetch_responds _ _ _ _ E), Hok.
  - unfold Index.try_endpoint. run.
    rewrite (fetch_responds _ _ _ _ E), Hok. cbn [negb].
    unfold res_json. now rewrite Hj.
Qed.

(** A message that names a private or a missing video ends the turn with
    the matching string. *)
Lemma server_endpoint_message (a : jsstring) (h : trace) (res : response)
    (data : value) (m : jsstring) :
  net w h (api_request a) = Responds res ->
  ok res = true ->
  json_body res = Some data ->
  play_url data = None ->
  message_of data = VStr m ->
  Server.try_endpoint w a h
  = (Normal
       (if includes m (lit "private") || includes m (lit "friends")
        then Some Server.PRIVATE
        else if includes m (lit "not found") || includes m (lit "deleted")
             then Some Server.NOT_FOUND
             else None),
     h ++ [asked a]).
Proof.
  intros E Hok Hj Hp Hm.
  rewrite (server_endpoint_no_play _ _ _ _ E Hok Hj Hp).
  destruct (get data "msg") eqn:G.
  - now rewrite (check_msg_string _ _ _ Hm).
  - unfold message_of in Hm. rewrite G in Hm. discriminate.
Qed.

End Chain.

(* ------------------------------------------------------------------ *)
(** ** The resolver chain, over the list of endpoints *)

Section ChainLoop.
Variable w : World.

Lemma asked_all_snoc (l : list jsstring) (a : jsstring) :
  asked_all (l ++ [a]) = asked_all l ++ [Fetch (api_request a)].
Proof. unfold asked_all. now rewrite map_app. Qed.

Lemma AllAbstain_tail (h : trace) (a : jsstring) (l : list jsstring) :
  AllAbstain w h (a :: l) ->
  Abstains (net w h (api_request a))
  /\ AllAbstain w (h ++ [Fetch (api_request a)]) l.
Proof.
  intros H. split.
  - specialize (H [] a l eq_refl). simpl in H. now rewrite app_nil_r in H.
  - intros pre x post E. specialize (H (a :: pre) x post).
    rewrite <- app_assoc. apply H. now rewrite E.
Qed.

Lemma server_chain_exhausted (l : list jsstring) :
  forall h, AllAbstain w h l ->
  Server.try_endpoints w l h = (Normal Server.NULL, h ++ asked_all l).
Proof.
  induction l as [|a l IH]; intros h H.
  - simpl. now rewrite app_nil_r.
  - apply AllAbstain_tail in H. destruct H as [Ha Hl].
    cbn [Server.try_endpoints]. run.
    rewrite (server_endpoint_abstains w a h Ha), (IH _ Hl).
    now rewrite <- app_assoc.
Qed.

Lemma server_chain_first_play (pre : list jsstring) :
  forall h a post v,
  AllAbstain w h pre ->
  Plays (net w (h ++ asked_all pre) (api_request a)) v ->
  Server.try_endpoints w (pre ++ a :: post) h
  = (Normal (Server.Resolved v), h ++ asked_all (pre ++ [a])).
Proof.
  induction pre as [|x pre IH]; intros h a post v H P.
  - simpl in *. rewrite app_nil_r in P. run.
    now rewrite (server_endpoint_plays w a h v P).
  - apply AllAbstain_tail in H. destruct H as [Hx Hp].
    cbn [app Server.try_endpoints]. run.
    rewrite (server_endpoint_abstains w x h Hx).
    rewrite (IH (h ++ [Fetch (api_request x)]) a post v Hp).
    + now rewrite <- app_assoc.
    + rewrite <- app_assoc. exact P.
Qed.

Lemma index_chain_exhausted (l : list jsstring) :
  forall h, AllAbstain w h l ->
  Index.try_endpoints w l h = (Normal None, h ++ asked_all l).
Proof.
  induction l as [|a l IH]; intros h H.
  - simpl. now rewrite app_nil_r.
  - apply AllAbstain_tail in H. destruct H as [Ha Hl].
    cbn [Index.try_endpoints]. run.
    rewrite (index_endpoint_abstains w a h Ha), (IH _ Hl).
    now rewrite <- app_assoc.
Qed.

Lemma index_chain_first_play (pre : list jsstring) :
  forall h a post v,
  AllAbstain w h pre ->
  Plays (net w (h ++ asked_all pre) (api_request a)) v ->
  Index.try_endpoints w (pre ++ a :: post) h
  = (Normal (Some v), h ++ asked_all (pre ++ [a])).
Proof.
  induction pre as [|x pre IH]; intros h a post v H P.
  - simpl in *. rewrite app_nil_r in P. run.
    now rewrite (index_endpoint_plays w a h v P).
  - apply AllAbstain_tail in H. destruct H as [Hx Hp].
    cbn [app Index.try_endpoints]. run.
    rewrite (index_endpoint_abstains w x h Hx).
    rewrite (IH (h ++ [Fetch (api_request x)]) a post v Hp).
    + now rewrite <- app_assoc.
    + rewrite <- app_assoc. exact P.
Qed.

Lemma AllAbstain_nil (h : trace) : AllAbstain w h [].
Proof. intros [|x pre] a post E; discriminate. Qed.

Lemma AllAbstain_one (h : trace) (a : jsstring) :
  Abstains (net w h (api_request a)) -> AllAbstain w h [a].
Proof.
  intros A [|x [|y pre]] b post E; try discriminate.
  inversion E. subst. simpl. now rewrite app_nil_r.
Qed.

Lemma AllAbstain_two (h : trace) (a b : jsstring) :
  Abstains (net w h (api_request a)) ->
  Abstains (net w (h ++ [Fetch (api_request a)]) (api_request b)) ->
  AllAbstain w h [a; b].
Proof.
  intros A B [|x [|y [|z pre]]] c post E; try discriminate;
    inversion E; subst; simpl.
  - now rewrite app_nil_r.
  - exact B.
Qed.

End ChainLoop.

(* ------------------------------------------------------------------ *)
(** ** [tryTikWmAPI] *)

Section TryTikWmAPI.

Import Worlds.

(** C5: for a source URL [url] (one that [encodeURIComponent] accepts) the
    chain asks [tikwm.com] and then [www.tikwm.com], in that order, in
    both entry points.  An endpoint that abstains (the fetch fails, the
    status is not 2xx, the body is not JSON, or the payload has neither a
    play URL nor a terminal message) hands over to the next one; the first
    endpoint whose payload has a play URL ends the chain with that
    endpoint's data; when both abstain the chain yields [null]. *)
Theorem chain_in_fixed_order (w : World) (url u : jsstring) (h : trace) :
  encodeURIComponent url = Some u ->
  let e1 := lit "https://tikwm.com/api/?url=" ++ u in
  let e2 := lit "https://www.tikwm.com/api/?url=" ++ u in
  let h1 := h ++ [Fetch (api_request e1)] in
  let h2 := h1 ++ [Fetch (api_request e2)] in
  (forall v, Plays (net w h (api_request e1)) v ->
     Server.tryTikWmAPI w url h = (Normal (Server.Resolved v), h1)
     /\ Index.tryTikWmAPI w url h = (Normal (Some v), h1))
  /\ (forall v, Abstains (net w h (api_request e1)) ->
      Plays (net w h1 (api_request e2)) v ->
      Server.tryTikWmAPI w url h = (Normal (Server.Resolved v), h2)
      /\ Index.tryTikWmAPI w url h = (Normal (Some v), h2))
  /\ (Abstains (net w h (api_request e1)) ->
      Abstains (net w h1 (api_request e2)) ->
      Server.tryTikWmAPI w url h = (Normal Server.NULL, h2)
      /\ Index.tryTikWmAPI w url h = (Normal None, h2)).
Proof.
  intros E e1 e2 h1 h2.
  assert (S : Server.tryTikWmAPI w url h = Server.try_endpoints w [e1; e2] h).
  { unfold Server.tryTikWmAPI, endpoints. rewrite E. reflexivity. }
  assert (I : Index.tryTikWmAPI w url h = Index.try_endpoints w [e1; e2] h).
  { unfold Index.tryTikWmAPI, endpoints. rewrite E. reflexivity. }
  rewrite S, I. split; [|split].
  - intros v P. split.
    + apply (server_chain_first_play w [] h e1 [e2] v (AllAbstain_nil w h)).
      simpl. now rewrite app_nil_r.
    + apply (index_chain_first_play w [] h e1 [e2] v (AllAbstain_nil w h)).
      simpl. now rewrite app_nil_r.
  - intros v A P. unfold h2, h1. rewrite <- app_assoc. split.
    + apply (server_chain_first_play w [e1] h e2 [] v
               (AllAbstain_one w h e1 A) P).
    + apply (index_chain_first_play w [e1] h e2 [] v
               (AllAbstain_one w h e1 A) P).
  - intros A B. unfold h2, h1. rewrite <- app_assoc. split.
    + apply (server_chain_exhausted w [e1; e2] h (AllAbstain_two w h e1 e2 A B)).
    + apply (index_chain_exhausted w [e1; e2] h (AllAbstain_two w h e1 e2 A B)).
Qed.

(** The first endpoint answers 503 and the second has the play URL. *)
Lemma chain_in_fixed_order_witness :
  Server.tryTikWmAPI w_second url0 []
  = (Normal (Server.Resolved
       {| videoUrl := VStr media; title := VStr (lit "Hello! World??") |}),
     [Fetch (api_request api1); Fetch (api_request api2)])
  /\ Index.tryTikWmAPI w_second url0 []
  = (Normal (Some
       {| videoUrl := VStr media; title := VStr (lit "Hello! World??") |}),
     [Fetch (api_request api1); Fetch (api_request api2)]).
Proof.
  refine (proj1 (proj2 (chain_in_fixed_order w_second url0 enc0 []
                          eq_refl)) _ _ _).
  - exact (abstains_status
             (response_of 503 "Service Unavailable" None None) eq_refl).
  - exact (plays (response_of 200 "OK" None (Some payload_play))
             payload_play (VStr media) eq_refl eq_refl eq_refl).
Defined.

(** C2, as the code has it: the message of a payload without a play URL
    is searched for the four words as they are written, in lower case.
    With [private] or [friends] in it the chain returns ['PRIVATE'];
    otherwise with [not found] or [deleted] in it the chain returns
    ['NOT_FOUND']; in both cases no further endpoint is asked.  With none
    of them the chain goes on to the next endpoint. *)
Theorem message_classification (w : World) (a : jsstring)
    (rest : list jsstring) (h : trace) (res : response) (data : value)
    (m : jsstring) :
  net w h (api_request a) = Responds res ->
  ok res = true ->
  json_body res = Some data ->
  play_url data = None ->
  message_of data = VStr m ->
  (SaysPrivate m ->
     Server.try_endpoints w (a :: rest) h
     = (Normal Server.PRIVATE, h ++ [Fetch (api_request a)]))
  /\ (~ SaysPrivate m -> SaysNotFound m ->
      Server.try_endpoints w (a :: rest) h
      = (Normal Server.NOT_FOUND, h ++ [Fetch (api_request a)]))
  /\ (~ SaysPrivate m -> ~ SaysNotFound m ->
      Server.try_endpoints w (a :: rest) h
      = Server.try_endpoints w rest (h ++ [Fetch (api_request a)])).
Proof.
  intros E Hok Hj Hp Hm.
  pose proof (server_endpoint_message w a h res data m E Hok Hj Hp Hm) as T.
  cbn [Server.try_endpoints]. run. rewrite T. clear T.
  rewrite <- SaysPrivate_dec, <- SaysNotFound_dec.
  destruct (includes m (lit "private") || includes m (lit "friends"));
    destruct (includes m (lit "not found") || includes m (lit "deleted"));
    repeat split; intros; try reflexivity; try congruence;
    exfalso; auto.
Qed.

(** A message with [private] in it stops the chain at the first
    endpoint: the second one is not asked. *)
Lemma message_classification_witness :
  Server.try_endpoints w_private [api1; api2] []
  = (Normal Server.PRIVATE, [Fetch (api_request api1)]).
Proof.
  refine (proj1 (message_classification w_private api1 [api2] []
            (response_of 200 "OK" None
               (Some (payload_msg "This video is private")))
            (payload_msg "This video is private")
            (lit "This video is private")
            eq_refl eq_refl eq_refl eq_refl eq_refl) _).
  left. exists (lit "This video is "), []. reflexivity.
Defined.

(** C2 as stated fails: [This video is Private] has [private] in it when
    case is disregarded, yet the chain does not stop there: it asks the
    second endpoint and resolves. *)
Lemma classifier_is_case_sensitive :
  SaysPrivate_ci (lit "This video is Private")
  /\ message_of (payload_msg "This video is Private")
     = VStr (lit "This video is Private")
  /\ Server.tryTikWmAPI w_Private url0 []
     = (Normal (Server.Resolved
          {| videoUrl := VStr media; title := VStr (lit "Hello! World??") |}),
        [Fetch (api_request api1); Fetch (api_request api2)]).
Proof.
  split; [|split].
  - left. exists (lit "this video is "), []. reflexivity.
  - reflexivity.
  - reflexivity.
Qed.

(** C10: a 2xx payload with a play URL resolves whatever its message
    field [msg] holds: the chain returns the play URL and the title of
    that payload and stops; the message block is not reached. *)
Theorem play_url_takes_precedence (w : World) (a : jsstring)
    (rest : list jsstring) (h : trace) (res : response)
    (data p msg : value) :
  net w h (api_request a) = Responds res ->
  ok res = true ->
  json_body res = Some data ->
  play_url data = Some p ->
  get data "msg" = Some msg ->
  Server.try_endpoints w (a :: rest) h
  = (Normal (Server.Resolved
       {| videoUrl := p;
          title := js_or (title_of data) (VStr (lit "tiktok_video")) |}),
     h ++ [Fetch (api_request a)]).
Proof.
  intros E Hok Hj Hp _.
  cbn [Server.try_endpoints]. run.
  rewrite (server_endpoint_plays w a h
    {| videoUrl := p;
       title := js_or (title_of data) (VStr (lit "tiktok_video")) |}).
  - reflexivity.
  - rewrite E. now constructor.
Qed.

(** The payload has a play URL and the message [private]; alone, the
    message block would answer ['PRIVATE']. *)
Lemma play_url_takes_precedence_witness :
  Server.check_msg payload_both [] = (Normal (Some Server.PRIVATE), [])
  /\ Server.try_endpoints w_both [api1; api2] []
     = (Normal (Server.Resolved
          {| videoUrl := VStr media; title := VStr (lit "tiktok_video") |}),
        [Fetch (api_request api1)]).
Proof.
  split; [reflexivity|].
  exact (play_url_takes_precedence w_both api1 [api2] []
           (response_of 200 "OK" None (Some payload_both)) payload_both
           (VStr media) (VStr (lit "private"))
           eq_refl eq_refl eq_refl eq_refl eq_refl).
Defined.

End TryTikWmAPI.

(* ------------------------------------------------------------------ *)
(** ** The batch loop of the service *)

Section Batch.
Variable w : World.
Variable targetPath : jsstring.

Import Server.

(** [downloadTikTokVideo] never throws: whatever happens inside its [try]
    comes back as an outcome. *)
Lemma downloadTikTokVideo_total (url : jsstring) (h : trace) :
  exists o h', downloadTikTokVideo w url targetPath h = (Normal o, h').
Proof.
  unfold downloadTikTokVideo, try_catch.
  match goal with |- context [match ?m h with _ => _ end] =>
    destruct (m h) as [[o|e] h'] end; unfold ret; eauto.
Qed.

(** What one turn of the loop pushes for a string. *)
Lemma download_item_string (url : jsstring) (h : trace) :
  exists e h',
    download_item w targetPath (VStr url) h = (Normal e, h')
    /\ entry_url e = trim url.
Proof.
  unfold download_item, url_trim. run.
  rewrite includes_of_str.
  destruct (truthy (VStr (trim url))); run.
  - destruct (includes url (lit "tiktok.com")).
    + destruct (downloadTikTokVideo_total (trim url) h) as [o [h' E]].
      run. rewrite E. eauto.
    + eauto.
  - eauto.
Qed.

Lemma download_loop_strings (urls : list jsstring) :
  forall results h,
  exists rs h',
    download_loop w targetPath (map VStr urls) results h
    = (Normal (results ++ rs), h')
    /\ download_loop w targetPath (map VStr urls) [] h = (Normal rs, h')
    /\ length rs = length urls
    /\ map entry_url rs = map trim urls.
Proof.
  induction urls as [|u urls IH]; intros results h.
  - exists [], h. simpl. unfold ret. now rewrite app_nil_r.
  - destruct (download_item_string u h) as [e [h1 [E U]]].
    destruct (IH (results ++ [e]) h1) as [rs [h2 [R1 [R2 [L Us]]]]].
    destruct (IH [e] h1) as [rs' [h2' [R1' [R2' _]]]].
    assert (rs' = rs /\ h2' = h2) as [-> ->] by (split; congruence).
    exists (e :: rs), h2. cbn [map download_loop]. run. rewrite E.
    rewrite R1, <- app_assoc. cbn [app]. rewrite R1'.
    repeat split.
    + simpl. now rewrite L.
    + simpl. now rewrite U, Us.
Qed.

Lemma download_loop_app (pre : list jsstring) :
  forall post results h rs1 h1,
  download_loop w targetPath (map VStr pre) results h = (Normal rs1, h1) ->
  download_loop w targetPath (map VStr (pre ++ post)) results h
  = download_loop w targetPath (map VStr post) rs1 h1.
Proof.
  induction pre as [|u pre IH]; intros post results h rs1 h1 E.
  - simpl in E. unfold ret in E. inversion E. reflexivity.
  - cbn [app map download_loop] in *. revert E. run.
    destruct (download_item w targetPath (VStr u) h) as [[e|x] h0].
    + intros E. now apply IH.
    + discriminate.
Qed.

(** C3: for every list of URL strings the loop completes with one entry
    per input, in the order of the inputs, each under its (trimmed) URL.
    The entries of a batch [pre ++ post] are those of [pre] followed by
    those that [post] gets when it is processed from where [pre] left the
    world: whatever happened to the items of [pre], those of [post] are
    all processed. *)
Theorem batch_one_entry_per_url (pre post : list jsstring) (h : trace) :
  exists rs1 h1 rs2 h2,
    download_all w targetPath (map VStr (pre ++ post)) h
    = (Normal (rs1 ++ rs2), h2)
    /\ length (rs1 ++ rs2) = length (pre ++ post)
    /\ map entry_url (rs1 ++ rs2) = map trim (pre ++ post)
    /\ download_all w targetPath (map VStr pre) h = (Normal rs1, h1)
    /\ download_all w targetPath (map VStr post) h1 = (Normal rs2, h2)
    /\ length rs1 = length pre
    /\ length rs2 = length post.
Proof.
  unfold download_all.
  destruct (download_loop_strings pre [] h) as [rs1 [h1 [E1 [_ [L1 U1]]]]].
  destruct (download_loop_strings post rs1 h1) as [rs2 [h2 [E2 [E2' [L2 U2]]]]].
  exists rs1, h1, rs2, h2. simpl in E1.
  rewrite (download_loop_app pre post [] h rs1 h1 E1), E2.
  rewrite !length_app, !map_app, L1, L2, U1, U2. repeat split; auto.
Qed.

(** C4, as the code has it: a URL without [tiktok.com] in it gets the
    entry [{ url, success: false, error: 'Invalid TikTok URL' }] and the
    loop goes on from the same trace: no request was made for it. *)
Theorem invalid_url_short_circuits (url : jsstring) (rest : list value)
    (results : list entry) (h : trace) :
  ~ Substring (lit "tiktok.com") url ->
  download_item w targetPath (VStr url) h
  = (Normal {| entry_url := trim url;
               entry_result := Failure (lit "Invalid TikTok URL") |}, h)
  /\ download_loop w targetPath (VStr url :: rest) results h
     = download_loop w targetPath rest
         (results ++ [{| entry_url := trim url;
                         entry_result := Failure (lit "Invalid TikTok URL") |}])
         h.
Proof.
  intros N. apply includes_false in N.
  assert (E : download_item w targetPath (VStr url) h
    = (Normal {| entry_url := trim url;
                 entry_result := Failure (lit "Invalid TikTok URL") |}, h)).
  { unfold download_item, url_trim. run. rewrite includes_of_str, N.
    destruct (truthy (VStr (trim url))); reflexivity. }
  split; [exact E|].
  cbn [download_loop]. run. now rewrite E.
Qed.

End Batch.

Section BatchExamples.

Import Worlds Server.

Lemma invalid_url_short_circuits_witness :
  download_item w_second (lit "/downloads") (VStr (lit "not-a-url")) []
  = (Normal {| entry_url := lit "not-a-url";
               entry_result := Failure (lit "Invalid TikTok URL") |}, [])
  /\ download_loop w_second (lit "/downloads")
       [VStr (lit "not-a-url"); VStr url0] [] []
     = download_loop w_second (lit "/downloads") [VStr url0]
         [{| entry_url := lit "not-a-url";
             entry_result := Failure (lit "Invalid TikTok URL") |}] [].
Proof.
  apply (invalid_url_short_circuits w_second (lit "/downloads")
           (lit "not-a-url") [VStr url0] [] []).
  apply includes_false. reflexivity.
Defined.

(** C4 as stated fails: the error of the entry is not [Invalid URL]. *)
Lemma invalid_url_error_text :
  download_all w_second (lit "/downloads") [VStr (lit "not-a-url")] []
  = (Normal [{| entry_url := lit "not-a-url";
                entry_result := Failure (lit "Invalid TikTok URL") |}], [])
  /\ Failure (lit "Invalid TikTok URL") <> Failure (lit "Invalid URL").
Proof.
  split; [reflexivity | vm_compute; discriminate].
Qed.

(** The scenario of the specification: a valid URL and then a string
    that is not one. *)
Example batch_valid_then_invalid :
  download_all w_second (lit "/downloads")
    [VStr url0; VStr (lit "not-a-url")] []
  = (Normal
       [{| entry_url := url0;
           entry_result :=
             Success (lit "Hello__World___111.mp4")
               {| dir := lit "/downloads";
                  base := lit "Hello__World___111.mp4" |}
               (lit "Hello! World??") |};
        {| entry_url := lit "not-a-url";
           entry_result := Failure (lit "Invalid TikTok URL") |}],
     [Fetch probe_request; Fetch (api_request api1);
      Fetch (api_request api2); Fetch (video_request (VStr media));
      Pipe {| dir := lit "/downloads";
              base := lit "Hello__World___111.mp4" |}]).
Proof. reflexivity. Qed.

(** A failure in the middle: the item after it is processed all the
    same. *)
Example batch_failure_in_the_middle :
  map (fun e => (entry_url e, success (entry_result e)))
    (match download_all w_second (lit "/downloads")
             [VStr url0; VStr (lit "  "); VStr (lit "https://tiktok.com/x");
              VStr (lit " https://www.tiktok.com/@u/video/111 ")] []
     with
     | (Normal rs, _) => rs
     | (Throw _, _) => []
     end)
  = [(url0, true); ([], false); (lit "https://tiktok.com/x", false);
     (url0, true)].
Proof. reflexivity. Qed.

End BatchExamples.

(* ------------------------------------------------------------------ *)
(** ** The connectivity probe *)

Section Probe.
Variable w : World.

Lemma server_probe (h : trace) :
  Server.testNetworkConnectivity w h
  = (Normal (reachable w h), h ++ [Fetch probe_request]).
Proof.
  unfold Server.testNetworkConnectivity, reachable, fetch. run.
  destruct (net w h probe_request); reflexivity.
Qed.

(** In [index.mjs] the value is truthy exactly when the probe got a 2xx
    answer. *)
Lemma index_probe (h : trace) :
  exists v, Index.testNetworkConnectivity w h
            = (Normal v, h ++ [Fetch probe_request])
            /\ truthy v = reachable w h.
Proof.
  unfold Index.testNetworkConnectivity, reachable, fetch. run.
  destruct (net w h probe_request) as [m|res].
  - eexists; split; reflexivity.
  - destruct (ok res); eexists; split; reflexivity.
Qed.

(** When the probe fails the service reports it and asks no provider. *)
Lemma server_unreachable (url downloadPath : jsstring) (h : trace) :
  reachable w h = false ->
  Server.downloadTikTokVideo w url downloadPath h
  = (Normal (Server.Failure (lit "Network connectivity issues detected")),
     h ++ [Fetch probe_request]).
Proof.
  intros R. unfold Server.downloadTikTokVideo. run.
  now rewrite server_probe, R.
Qed.

(** When the probe fails the command stops and asks no provider. *)
Lemma index_unreachable (dirname url : jsstring) (h : trace) :
  reachable w h = false ->
  Index.downloadTikTok w dirname url h
  = (Normal tt, h ++ [Fetch probe_request]).
Proof.
  intros R. unfold Index.downloadTikTok. run.
  destruct (index_probe h) as [v [-> T]]. now rewrite T, R.
Qed.

End Probe.

Section ProbeExamples.

Import Worlds.

(** C7 at a probe answered with a 503: in [index.mjs] the probe function
    returns [undefined], not a boolean; in [server.mjs] it returns
    [false]. *)
Theorem index_probe_returns_undefined :
  Index.testNetworkConnectivity w_down []
  = (Normal VUndefined, [Fetch probe_request])
  /\ Server.testNetworkConnectivity w_down []
     = (Normal false, [Fetch probe_request]).
Proof. split; reflexivity. Qed.

End ProbeExamples.

(* ------------------------------------------------------------------ *)
(** ** Retrieval *)

Section Retrieval.
Variable w : World.

(** The status code is written in the error message. *)
Lemma download_failed_status (res : response) :
  Substring (of_N (status res)) (download_failed res).
Proof.
  exists (lit "Video download failed: "), (lit " " ++ statusText res).
  reflexivity.
Qed.

(** The four ways [retrieve] can end. *)
Lemma retrieve_cases (target : value) (file : filepath) (h : trace) :
  let get := Fetch (video_request target) in
  match net w h (video_request target) with
  | Rejects m => retrieve w target file h = (Throw (Error m), h ++ [get])
  | Responds res =>
      if ok res then
        match pipe w (h ++ [get]) file with
        | None =>
            retrieve w target file h = (Normal tt, h ++ [get] ++ [Pipe file])
        | Some m =>
            retrieve w target file h
            = (Throw (Error m), h ++ [get] ++ [Pipe file])
        end
      else
        retrieve w target file h
        = (Throw (Error (download_failed res)), h ++ [get])
  end.
Proof.
  unfold retrieve, fetch, pipeline. run.
  destruct (net w h (video_request target)) as [m|res]; [reflexivity|].
  destruct (ok res); cbn [negb]; [|reflexivity].
  rewrite <- app_assoc.
  destruct (pipe w (h ++ [Fetch (video_request target)]) file); reflexivity.
Qed.

(** [retrieve] completes only after a 2xx answer and a complete stream. *)
Lemma retrieve_normal (target : value) (file : filepath) (h h' : trace) :
  retrieve w target file h = (Normal tt, h') ->
  h' = h ++ [Fetch (video_request target); Pipe file]
  /\ (exists res, net w h (video_request target) = Responds res
                  /\ ok res = true)
  /\ pipe w (h ++ [Fetch (video_request target)]) file = None.
Proof.
  pose proof (retrieve_cases target file h) as C. cbn zeta in C.
  destruct (net w h (video_request target)) as [m|res].
  - rewrite C. discriminate.
  - destruct (ok res) eqn:Hok.
    + destruct (pipe w (h ++ [Fetch (video_request target)]) file).
      * rewrite C. discriminate.
      * rewrite C. intros E. inversion E. repeat split; eauto.
    + rewrite C. discriminate.
Qed.

(** The service, once the chain has resolved to a titled video. *)
Lemma server_resolved (url downloadPath : jsstring) (h h2 : trace)
    (v : videoData) (t : jsstring) :
  reachable w h = true ->
  Server.tryTikWmAPI w url (h ++ [Fetch probe_request])
  = (Normal (Server.Resolved v), h2) ->
  title v = VStr t ->
  let name := destinationName t (videoId url) in
  let file := {| dir := downloadPath; base := name |} in
  Server.downloadTikTokVideo w url downloadPath h
  = match retrieve w (videoUrl v) file h2 with
    | (Normal _, h3) => (Normal (Server.Success name file t), h3)
    | (Throw e, h3) => (Normal (Server.Failure (message e)), h3)
    end.
Proof.
  intros R C T name file. unfold Server.downloadTikTokVideo. run.
  rewrite server_probe, R. cbn [negb]. rewrite C, T. cbn [title_string]. run.
  fold name. fold file.
  destruct (retrieve w (videoUrl v) file h2) as [[[]|e] h3]; reflexivity.
Qed.

(** The service reports success only at the end of the [try] block. *)
Lemma server_success_inv (url downloadPath : jsstring) (h h' : trace)
    (o : Server.outcome) :
  Server.downloadTikTokVideo w url downloadPath h = (Normal o, h') ->
  Server.success o = true ->
  exists h0 target file, retrieve w target file h0 = (Normal tt, h').
Proof.
  unfold Server.downloadTikTokVideo. run.
  destruct (Server.testNetworkConnectivity w h) as [[b|e] h1];
    [|intros E; inversion E; subst; discriminate].
  destruct b; cbn [negb];
    [|intros E; inversion E; subst; discriminate].
  destruct (Server.tryTikWmAPI w url h1) as [[r|e] h2];
    [|intros E; inversion E; subst; discriminate].
  destruct r as [v| | |];
    try (intros E; inversion E; subst; discriminate).
  destruct (title v) as [| | | | t | |]; cbn [title_string]; run;
    try (intros E; inversion E; subst; discriminate).
  destruct (retrieve w (videoUrl v)
              {| dir := downloadPath;
                 base := destinationName t (videoId url) |} h2)
    as [[[]|e] h3] eqn:Rt;
    [|intros E; inversion E; subst; discriminate].
  intros E _. inversion E. subst.
  eexists h2, (videoUrl v), _. exact Rt.
Qed.

End Retrieval.

Section RetrievalClaims.

Import Worlds.

Lemma ok_spec (res : response) :
  ok res = true <-> (200 <= status res <= 299)%N.
Proof.
  unfold ok. now rewrite andb_true_iff, !N.leb_le.
Qed.

(** C6: in the service, once the chain has resolved to a media URL,
    - a retrieval GET answered with a status outside 200-299 gives
      [{ success: false, error }] where [error] is
      [Video download failed: <status> <statusText>], which has the status
      code in it, and nothing is streamed;
    - a stream that is interrupted gives [{ success: false, error }] with
      the cause as the error;
    - and whenever the outcome has [success: true], the last two events
      are a retrieval GET answered 2xx and a stream into the destination
      file that completed. *)
Theorem retrieval_failure_is_reported (w : World)
    (url downloadPath : jsstring) (h : trace) :
  (forall h2 v t res,
     reachable w h = true ->
     Server.tryTikWmAPI w url (h ++ [Fetch probe_request])
     = (Normal (Server.Resolved v), h2) ->
     title v = VStr t ->
     net w h2 (video_request (videoUrl v)) = Responds res ->
     ~ (200 <= status res <= 299)%N ->
     Server.downloadTikTokVideo w url downloadPath h
     = (Normal (Server.Failure (download_failed res)),
        h2 ++ [Fetch (video_request (videoUrl v))])
     /\ Substring (of_N (status res)) (download_failed res))
  /\ (forall h2 v t res m,
     reachable w h = true ->
     Server.tryTikWmAPI w url (h ++ [Fetch probe_request])
     = (Normal (Server.Resolved v), h2) ->
     title v = VStr t ->
     net w h2 (video_request (videoUrl v)) = Responds res ->
     (200 <= status res <= 299)%N ->
     let file := {| dir := downloadPath;
                    base := destinationName t (videoId url) |} in
     pipe w (h2 ++ [Fetch (video_request (videoUrl v))]) file = Some m ->
     Server.downloadTikTokVideo w url downloadPath h
     = (Normal (Server.Failure m),
        h2 ++ [Fetch (video_request (videoUrl v)); Pipe file]))
  /\ (forall o h',
     Server.downloadTikTokVideo w url downloadPath h = (Normal o, h') ->
     Server.success o = true ->
     exists h0 target file res,
       h' = h0 ++ [Fetch (video_request target); Pipe file]
       /\ net w h0 (video_request target) = Responds res
       /\ (200 <= status res <= 299)%N
       /\ pipe w (h0 ++ [Fetch (video_request target)]) file = None).
Proof.
  split; [|split].
  - intros h2 v t res R C T E S. rewrite <- ok_spec in S.
    apply not_true_is_false in S.
    rewrite (server_resolved w url downloadPath h h2 v t R C T).
    pose proof (retrieve_cases w (videoUrl v)
      {| dir := downloadPath; base := destinationName t (videoId url) |} h2)
      as RC.
    cbn zeta in RC. rewrite E, S in RC. rewrite RC.
    split; [reflexivity | apply download_failed_status].
  - intros h2 v t res m R C T E S file P. rewrite <- ok_spec in S.
    rewrite (server_resolved w url downloadPath h h2 v t R C T).
    pose proof (retrieve_cases w (videoUrl v) file h2) as RC.
    cbn zeta in RC. rewrite E, S, P in RC. fold file. rewrite RC.
    reflexivity.
  - intros o h' E S.
    destruct (server_success_inv w url downloadPath h h' o E S)
      as [h0 [target [file Rt]]].
    apply retrieve_normal in Rt. destruct Rt as [-> [[res [N Hok]] P]].
    exists h0, target, file, res. rewrite <- ok_spec. auto.
Qed.

(** The media URL answers 404. *)
Lemma retrieval_failure_is_reported_witness :
  Server.downloadTikTokVideo w_404 url0 (lit "/downloads") []
  = (Normal (Server.Failure (lit "Video download failed: 404 Not Found")),
     [Fetch probe_request; Fetch (api_request api1)]
     ++ [Fetch (video_request (VStr media))])
  /\ Substring (lit "404") (lit "Video download failed: 404 Not Found").
Proof.
  refine (proj1 (retrieval_failure_is_reported w_404 url0
                   (lit "/downloads") [])
            [Fetch probe_request; Fetch (api_request api1)]
            {| videoUrl := VStr media;
               title := VStr (lit "Hello! World??") |}
            (lit "Hello! World??")
            (response_of 404 "Not Found" None None)
            eq_refl eq_refl eq_refl eq_refl _).
  cbn. lia.
Defined.

(** The stream breaks after a 200: the outcome is a failure. *)
Example broken_stream_is_failure :
  Server.downloadTikTokVideo w_broken url0 (lit "/downloads") []
  = (Normal (Server.Failure (lit "aborted")),
     [Fetch probe_request; Fetch (api_request api1);
      Fetch (api_request api2); Fetch (video_request (VStr media));
      Pipe {| dir := lit "/downloads";
              base := lit "Hello__World___111.mp4" |}]).
Proof. reflexivity. Qed.

End RetrievalClaims.

(* ------------------------------------------------------------------ *)
(** ** The direct-URL fallback of [index.mjs] *)

Section Fallback.
Variable w : World.
Variable dirname : jsstring.

Lemma Accepted_responds (res : response) :
  Accepted (Responds res) <-> ok res && Index.is_video res = true.
Proof.
  unfold Accepted, Index.is_video. rewrite andb_true_iff. split.
  - intros [r [E [Hok [ct [Hct S]]]]]. inversion E. subst r.
    rewrite Hct. split; [exact Hok | now apply includes_spec].
  - intros [Hok V]. exists res. repeat split; auto.
    destruct (content_type res) as [ct|]; [|discriminate].
    exists ct. split; [reflexivity | now apply includes_spec].
Qed.

Lemma Accepted_rejects (m : jsstring) : ~ Accepted (Rejects m).
Proof. intros [r [E _]]. discriminate. Qed.

Lemma candidate_accepted (id c : jsstring) (h : trace) :
  Accepted (net w h (Index.head_request c)) ->
  Index.try_candidate w id c h
  = (Normal (Some {| videoUrl := VStr c;
                     title := VStr (lit "tiktok_" ++ id) |}),
     h ++ [Fetch (Index.head_request c)]).
Proof.
  intros A. unfold Index.try_candidate, fetch. run.
  destruct (net w h (Index.head_request c)) as [m|res].
  - now apply Accepted_rejects in A.
  - apply Accepted_responds in A. now rewrite A.
Qed.

Lemma candidate_refused (id c : jsstring) (h : trace) :
  ~ Accepted (net w h (Index.head_request c)) ->
  Index.try_candidate w id c h
  = (Normal None, h ++ [Fetch (Index.head_request c)]).
Proof.
  intros A. unfold Index.try_candidate, fetch. run.
  destruct (net w h (Index.head_request c)) as [m|res]; [reflexivity|].
  rewrite Accepted_responds in A. apply not_true_is_false in A.
  now rewrite A.
Qed.

(** The command, once the provider chain has come back with [null]: the
    fallback is run from there and its answer is what is retrieved. *)
Lemma index_after_unresolved (url : jsstring) (h h2 : trace) :
  reachable w h = true ->
  Index.tryTikWmAPI w url (h ++ [Fetch probe_request]) = (Normal None, h2) ->
  Index.downloadTikTok w dirname url h
  = match Index.tryAlternativeAPI w url h2 with
    | (Normal (Some v), h3) =>
        match title v with
        | VStr t =>
            (Normal tt,
             snd (retrieve w (videoUrl v)
                    {| dir := dirname;
                       base := destinationName t (videoId url) |} h3))
        | _ => (Normal tt, h3)
        end
    | (_, h3) => (Normal tt, h3)
    end.
Proof.
  intros R C. unfold Index.downloadTikTok. run.
  destruct (index_probe w h) as [b [-> T]]. rewrite T, R. cbn [negb].
  rewrite C.
  destruct (Index.tryAlternativeAPI w url h2) as [[[v|]|e] h3];
    try reflexivity.
  destruct (title v); cbn [title_string]; run; try reflexivity.
  match goal with |- context [retrieve ?a ?b ?c ?d] =>
    destruct (retrieve a b c d) as [[[]|e] h4] end; reflexivity.
Qed.

End Fallback.

Section FallbackClaims.

Import Worlds.

(** C8, as the code has it: in the direct-invocation entry point
    ([index.mjs]), when the probe succeeded and the provider chain came
    back with [null], the fallback prober is run.  Without a
    [video/<digits>] in the URL it makes no request and nothing is
    downloaded.  Otherwise the id is that run of digits; the prober sends a
    HEAD request to the [v16-webapp] candidate and then to the [v19-webapp]
    one, takes the first that answers 2xx with [video] in its content
    type, resolves to it under the title [tiktok_<id>], and that is what
    is retrieved; when neither is accepted the result is [null] and
    nothing is downloaded. *)
Theorem fallback_after_unresolved (w : World) (dirname url : jsstring)
    (h h2 : trace) :
  reachable w h = true ->
  Index.tryTikWmAPI w url (h ++ [Fetch probe_request]) = (Normal None, h2) ->
  (match_video url = None ->
     Index.tryAlternativeAPI w url h2 = (Normal None, h2)
     /\ Index.downloadTikTok w dirname url h = (Normal tt, h2))
  /\ (forall id, match_video url = Some id ->
      let c1 := lit "https://v16-webapp.tiktok.com/video/tos/maliva/"
                ++ id ++ lit "/" in
      let c2 := lit "https://v19-webapp.tiktok.com/video/tos/maliva/"
                ++ id ++ lit "/" in
      let found c :=
        {| videoUrl := VStr c; title := VStr (lit "tiktok_" ++ id) |} in
      let file :=
        {| dir := dirname;
           base := destinationName (lit "tiktok_" ++ id) id |} in
      let h3 := h2 ++ [Fetch (Index.head_request c1)] in
      let h4 := h3 ++ [Fetch (Index.head_request c2)] in
      (id <> [] /\ Forall (fun c => is_digit c = true) id)
      /\ (Accepted (net w h2 (Index.head_request c1)) ->
          Index.tryAlternativeAPI w url h2 = (Normal (Some (found c1)), h3)
          /\ Index.downloadTikTok w dirname url h
             = (Normal tt, snd (retrieve w (VStr c1) file h3)))
      /\ (~ Accepted (net w h2 (Index.head_request c1)) ->
          Accepted (net w h3 (Index.head_request c2)) ->
          Index.tryAlternativeAPI w url h2 = (Normal (Some (found c2)), h4)
          /\ Index.downloadTikTok w dirname url h
             = (Normal tt, snd (retrieve w (VStr c2) file h4)))
      /\ (~ Accepted (net w h2 (Index.head_request c1)) ->
          ~ Accepted (net w h3 (Index.head_request c2)) ->
          Index.tryAlternativeAPI w url h2 = (Normal None, h4)
          /\ Index.downloadTikTok w dirname url h = (Normal tt, h4))).
Proof.
  intros R C.
  pose proof (index_after_unresolved w dirname url h h2 R C) as D.
  split.
  - intros M.
    assert (A : Index.tryAlternativeAPI w url h2 = (Normal None, h2)).
    { unfold Index.tryAlternativeAPI. run. now rewrite M. }
    rewrite A in D. auto.
  - intros id M c1 c2 found file h3 h4.
    assert (V : videoId url = id) by (unfold videoId; now rewrite M).
    assert (A : Index.tryAlternativeAPI w url h2
                = match Index.try_candidates w id [c1; c2] h2 with
                  | (Normal r, h') => (Normal r, h')
                  | (Throw _, h') => (Normal None, h')
                  end).
    { unfold Index.tryAlternativeAPI. run. now rewrite M. }
    cbn [Index.try_candidates] in A. revert A. run. intros A.
    split; [|split; [|split]].
    + destruct (match_video_some url id M) as [N [F _]]. auto.
    + intros A1. rewrite (candidate_accepted w id c1 h2 A1) in A.
      rewrite A in D. cbn [title videoUrl found] in *. rewrite V in D. auto.
    + intros A1 A2. rewrite (candidate_refused w id c1 h2 A1) in A.
      fold h3 in A. rewrite (candidate_accepted w id c2 h3 A2) in A.
      rewrite A in D. cbn [title videoUrl found] in *. rewrite V in D. auto.
    + intros A1 A2. rewrite (candidate_refused w id c1 h2 A1) in A.
      fold h3 in A. rewrite (candidate_refused w id c2 h3 A2) in A.
      rewrite A in D. auto.
Qed.

Lemma cdn1_refused_in_w_fallback2 (h : trace) :
  ~ Accepted (net w_fallback2 h (Index.head_request cdn1)).
Proof.
  intros A.
  change (Accepted (Responds
            (response_of 200 "OK" (Some (lit "text/html")) None))) in A.
  apply Accepted_responds in A. discriminate.
Qed.

Lemma cdn2_accepted_in_w_fallback2 (h : trace) :
  Accepted (net w_fallback2 h (Index.head_request cdn2)).
Proof.
  change (Accepted (Responds
            (response_of 200 "OK" (Some (lit "video/mp4")) None))).
  now apply Accepted_responds.
Qed.

(** Both providers are down and the second candidate is a video: the
    command probes both candidates and retrieves the second. *)
Lemma fallback_after_unresolved_witness :
  Index.tryAlternativeAPI w_fallback2 url0
    [Fetch probe_request; Fetch (api_request api1); Fetch (api_request api2)]
  = (Normal (Some {| videoUrl := VStr cdn2;
                     title := VStr (lit "tiktok_111") |}),
     ([Fetch probe_request; Fetch (api_request api1);
       Fetch (api_request api2)] ++ [Fetch (Index.head_request cdn1)])
     ++ [Fetch (Index.head_request cdn2)])
  /\ Index.downloadTikTok w_fallback2 (lit "/app") url0 []
     = (Normal tt,
        snd (retrieve w_fallback2 (VStr cdn2)
               {| dir := lit "/app";
                  base := destinationName (lit "tiktok_111") (lit "111") |}
               (([Fetch probe_request; Fetch (api_request api1);
                  Fetch (api_request api2)]
                 ++ [Fetch (Index.head_request cdn1)])
                ++ [Fetch (Index.head_request cdn2)]))).
Proof.
  refine (proj1 (proj2 (proj2
    (proj2 (fallback_after_unresolved w_fallback2 (lit "/app") url0 []
              [Fetch probe_request; Fetch (api_request api1);
               Fetch (api_request api2)] eq_refl eq_refl)
       (lit "111") eq_refl))) _ _).
  - apply cdn1_refused_in_w_fallback2.
  - apply cdn2_accepted_in_w_fallback2.
Defined.

(** C8 as stated fails for the service: with both providers down and a
    CDN candidate that would be accepted, [server.mjs] makes no HEAD
    request and fails, where [index.mjs] probes the candidate and
    retrieves it. *)
Lemma server_has_no_fallback :
  Server.tryTikWmAPI w_fallback url0 [Fetch probe_request]
  = (Normal Server.NULL,
     [Fetch probe_request; Fetch (api_request api1);
      Fetch (api_request api2)])
  /\ Server.downloadTikTokVideo w_fallback url0 (lit "/app") []
     = (Normal (Server.Failure
          (lit "Failed to fetch video data from all APIs")),
        [Fetch probe_request; Fetch (api_request api1);
         Fetch (api_request api2)])
  /\ Index.downloadTikTok w_fallback (lit "/app") url0 []
     = (Normal tt,
        [Fetch probe_request; Fetch (api_request api1);
         Fetch (api_request api2); Fetch (Index.head_request cdn1);
         Fetch (video_request (VStr cdn1));
         Pipe {| dir := lit "/app"; base := lit "tiktok_111_111.mp4" |}]).
Proof. repeat split. Qed.

End FallbackClaims.

(* ------------------------------------------------------------------ *)
(** ** Defaults for the title and the id *)

Section Defaults.

Import Worlds.

Lemma videoId_default (url : jsstring) :
  ~ HasVideoSegment url -> videoId url = lit "tiktok_video".
Proof.
  intros H. apply match_video_none in H. unfold videoId. now rewrite H.
Qed.

(** C9, as the code has it: from a 2xx payload with a play URL both
    entry points resolve to that URL, with the payload's title when that
    value is truthy and with [tiktok_video] when it is not (no title, or
    an empty one).  For a URL without [video/<digits>] in it the id is
    [tiktok_video] and the destination name is
    [<sanitizedTitle>_tiktok_video.mp4]; the short link
    [https://vm.tiktok.com/ZMabc/] is downloaded under such a name. *)
Theorem title_and_id_defaults (w : World) (a : jsstring)
    (rest : list jsstring) (h : trace) (res : response) (data p : value)
    (url t : jsstring) :
  (net w h (api_request a) = Responds res ->
   ok res = true ->
   json_body res = Some data ->
   play_url data = Some p ->
   exists v,
     Server.try_endpoints w (a :: rest) h
     = (Normal (Server.Resolved v), h ++ [Fetch (api_request a)])
     /\ Index.try_endpoints w (a :: rest) h
        = (Normal (Some v), h ++ [Fetch (api_request a)])
     /\ videoUrl v = p
     /\ (truthy (title_of data) = true -> title v = title_of data)
     /\ (truthy (title_of data) = false ->
         title v = VStr (lit "tiktok_video")))
  /\ (~ HasVideoSegment url ->
      videoId url = lit "tiktok_video"
      /\ destinationName t (videoId url)
         = sanitizedTitle t ++ lit "_tiktok_video.mp4")
  /\ Server.downloadTikTokVideo w_short short_url (lit "/downloads") []
     = (Normal (Server.Success (lit "Hello__World___tiktok_video.mp4")
          {| dir := lit "/downloads";
             base := lit "Hello__World___tiktok_video.mp4" |}
          (lit "Hello! World??")),
        [Fetch probe_request; Fetch (api_request short_api1);
         Fetch (video_request (VStr media));
         Pipe {| dir := lit "/downloads";
                 base := lit "Hello__World___tiktok_video.mp4" |}]).
Proof.
  split; [|split].
  - intros E Hok Hj Hp.
    assert (P : Plays (net w h (api_request a))
      {| videoUrl := p;
         title := js_or (title_of data) (VStr (lit "tiktok_video")) |}).
    { rewrite E. now constructor. }
    eexists. cbn [Server.try_endpoints Index.try_endpoints]. run.
    rewrite (server_endpoint_plays w a h _ P).
    rewrite (index_endpoint_plays w a h _ P).
    repeat split; cbn [title]; unfold js_or; intros T; now rewrite T.
  - intros H. rewrite (videoId_default url H). split; reflexivity.
  - reflexivity.
Qed.

(** A video without a caption, and a short link. *)
Lemma title_and_id_defaults_witness :
  (exists v,
     Server.try_endpoints w_untitled [api1; api2] []
     = (Normal (Server.Resolved v), [] ++ [Fetch (api_request api1)])
     /\ Index.try_endpoints w_untitled [api1; api2] []
        = (Normal (Some v), [] ++ [Fetch (api_request api1)])
     /\ videoUrl v = VStr media
     /\ (truthy (title_of payload_untitled) = true ->
         title v = title_of payload_untitled)
     /\ (truthy (title_of payload_untitled) = false ->
         title v = VStr (lit "tiktok_video")))
  /\ videoId short_url = lit "tiktok_video"
  /\ destinationName (lit "Hello! World??") (videoId short_url)
     = sanitizedTitle (lit "Hello! World??") ++ lit "_tiktok_video.mp4".
Proof.
  pose proof (title_and_id_defaults w_untitled api1 [api2] []
                (response_of 200 "OK" None (Some payload_untitled))
                payload_untitled (VStr media) short_url
                (lit "Hello! World??")) as [T [D _]].
  split.
  - exact (T eq_refl eq_refl eq_refl eq_refl).
  - apply D. apply match_video_none. reflexivity.
Defined.

(** C9 as stated fails: the payload of a video without a caption has a
    title field, the empty string, and the resolution does not use it:
    the title is [tiktok_video].  (And the pattern is not tied to a path
    segment: a URL with [myvideo/7] and no [/video/] in it has the id
    [7].) *)
Lemma empty_title_gets_placeholder :
  (exists d, get payload_untitled "data" = Some (VObj d)
             /\ In (lit "title", VStr []) d)
  /\ title_of payload_untitled = VStr []
  /\ (includes (lit "https://www.tiktok.com/@u/myvideo/7") (lit "/video/")
      = false
      /\ videoId (lit "https://www.tiktok.com/@u/myvideo/7") = lit "7")
  /\ Server.tryTikWmAPI w_untitled url0 []
     = (Normal (Server.Resolved
          {| videoUrl := VStr media; title := VStr (lit "tiktok_video") |}),
        [Fetch (api_request api1)])
  /\ Index.tryTikWmAPI w_untitled url0 []
     = (Normal (Some
          {| videoUrl := VStr media; title := VStr (lit "tiktok_video") |}),
        [Fetch (api_request api1)])
  /\ VStr (lit "tiktok_video") <> title_of payload_untitled.
Proof.
  split; [|split; [|split; [|split; [|split]]]]; try reflexivity.
  - eexists. split; [reflexivity|]. right. left. reflexivity.
  - split; reflexivity.
  - vm_compute. discriminate.
Qed.

End Defaults.

(* ------------------------------------------------------------------ *)
(** ** More on the descriptor *)

Section DescriptorMore.

Import Worlds.

Lemma map_replace_char_clean (t : jsstring) :
  Forall (fun c => is_name_char c = true) t -> map replace_char t = t.
Proof.
  induction 1 as [|c t H _ IH]; [reflexivity|].
  simpl. unfold replace_char at 1. now rewrite H, IH.
Qed.

Lemma sanitizedTitle_short (t : jsstring) :
  length (sanitizedTitle t) <= 50.
Proof. rewrite sanitizedTitle_length. apply Nat.le_min_l. Qed.

(** Sanitizing a sanitized title changes nothing. *)
Theorem sanitizedTitle_idempotent (title : jsstring) :
  sanitizedTitle (sanitizedTitle title) = sanitizedTitle title.
Proof.
  rewrite (sanitizedTitle_map (sanitizedTitle title)).
  rewrite firstn_all2 by apply sanitizedTitle_short.
  apply map_replace_char_clean, sanitizedTitle_name_chars.
Qed.

(** A title of at most 50 characters, all of the class, is kept as it
    is. *)
Theorem sanitizedTitle_keeps_clean_titles (title : jsstring) :
  Forall (fun c => is_name_char c = true) title ->
  length title <= 50 ->
  sanitizedTitle title = title
  /\ forall id, destinationName title id = title ++ lit "_" ++ id ++ lit ".mp4".
Proof.
  intros F L.
  assert (E : sanitizedTitle title = title).
  { rewrite sanitizedTitle_map, firstn_all2 by exact L.
    now apply map_replace_char_clean. }
  split; [exact E|]. intros id. unfold destinationName. now rewrite E.
Qed.

Lemma sanitizedTitle_keeps_clean_titles_witness :
  sanitizedTitle (lit "tiktok_111") = lit "tiktok_111"
  /\ forall id, destinationName (lit "tiktok_111") id
                = lit "tiktok_111" ++ lit "_" ++ id ++ lit ".mp4".
Proof.
  apply (sanitizedTitle_keeps_clean_titles (lit "tiktok_111")).
  - apply Forall_forall. intros c H.
    exact (proj1 (forallb_forall is_name_char (lit "tiktok_111"))
             eq_refl c H).
  - vm_compute. lia.
Defined.

Lemma name_char_is_file_char (c : char16) :
  is_name_char c = true -> is_file_char c = true.
Proof. intros H. unfold is_file_char. now rewrite H. Qed.

Lemma digit_is_name_char (c : char16) :
  is_digit c = true -> is_name_char c = true.
Proof.
  intros H. unfold is_name_char. rewrite H.
  now rewrite !orb_true_r.
Qed.

Lemma videoId_name_chars (url : jsstring) :
  Forall (fun c => is_name_char c = true) (videoId url).
Proof.
  unfold videoId. destruct (match_video url) as [d|] eqn:E.
  - destruct (match_video_some url d E) as [_ [F _]].
    eapply Forall_impl; [|exact F]. apply digit_is_name_char.
  - apply Forall_forall. intros c H.
    exact (proj1 (forallb_forall is_name_char (lit "tiktok_video"))
             eq_refl c H).
Qed.

(** Whatever the title and the URL, the destination name is made of
    letters, digits, [-], [_] and [.] only: it has no [/] and no [\], so
    the file lands in the download directory itself. *)
Theorem destinationName_has_no_separator (title url : jsstring) :
  Forall (fun c => is_file_char c = true)
    (destinationName title (videoId url))
  /\ ~ In 47%N (destinationName title (videoId url))
  /\ ~ In 92%N (destinationName title (videoId url)).
Proof.
  assert (F : Forall (fun c => is_file_char c = true)
                (destinationName title (videoId url))).
  { unfold destinationName.
    apply Forall_app; split; [|apply Forall_app; split;
                                [|apply Forall_app; split]].
    - eapply Forall_impl; [|apply sanitizedTitle_name_chars].
      apply name_char_is_file_char.
    - apply Forall_forall. intros c [<-|[]]. reflexivity.
    - eapply Forall_impl; [|apply videoId_name_chars].
      apply name_char_is_file_char.
    - apply Forall_forall. intros c H.
      exact (proj1 (forallb_forall is_file_char (lit ".mp4")) eq_refl c H). }
  split; [exact F|].
  rewrite Forall_forall in F.
  split; intros I; apply F in I; discriminate.
Qed.

End DescriptorMore.

(* ------------------------------------------------------------------ *)
(** ** Which id is taken from a URL *)

Section VideoId.

Lemma match_video_here_rest (s d : jsstring) :
  match_video_here s = Some d ->
  exists b, s = lit "video/" ++ d ++ b
            /\ match b with [] => True | c :: _ => is_digit c = false end.
Proof.
  unfold match_video_here.
  destruct (strip_prefix (lit "video/") s) as [r|] eqn:E; [|discriminate].
  apply strip_prefix_spec in E. subst s.
  pose proof (span_digits_app r) as A.
  pose proof (span_digits_rest r) as R.
  destruct (fst (span_digits r)) as [|c d'] eqn:F; [discriminate|].
  intros H. inversion H. subst d.
  exists (snd (span_digits r)). split; [now rewrite <- A | exact R].
Qed.

(** Where the leftmost match stands. *)
Lemma match_video_leftmost (s d : jsstring) :
  match_video s = Some d ->
  exists a b,
    s = a ++ lit "video/" ++ d ++ b
    /\ match b with [] => True | c :: _ => is_digit c = false end
    /\ forall a1 a2, a = a1 ++ a2 -> a2 <> [] ->
         ~ MatchesHere (a2 ++ lit "video/" ++ d ++ b).
Proof.
  induction s as [|x s IH]; cbn [match_video].
  - destruct (match_video_here []) eqn:E; [|discriminate].
    intros H. inversion H. subst.
    destruct (match_video_here_rest _ _ E) as [b [E1 E2]].
    exists [], b. repeat split; auto.
    intros a1 a2 A N. destruct a1; destruct a2; try discriminate; congruence.
  - destruct (match_video_here (x :: s)) eqn:E.
    + intros H. inversion H. subst.
      destruct (match_video_here_rest _ _ E) as [b [E1 E2]].
      exists [], b. repeat split; auto.
      intros a1 a2 A N. destruct a1; destruct a2; try discriminate; congruence.
    + intros H. destruct (IH H) as [a [b [E1 [E2 L]]]].
      exists (x :: a), b. repeat split; auto.
      * cbn [app]. now rewrite <- E1.
      * intros a1 a2 A N. destruct a1 as [|y a1].
        -- simpl in A. subst a2.
           apply match_video_here_none in E.
           cbn [app]. rewrite <- E1. exact E.
        -- inversion A. subst. now apply (L a1 a2).
Qed.

(** The id of a URL is [tiktok_video] when no [video/] in it is followed
    by a digit.  Otherwise it is the run of digits after the leftmost
    [video/] that is followed by a digit, taken whole: the id is not
    empty, is made of digits, and the character after it is not one. *)
Theorem videoId_is_the_leftmost_run (url : jsstring) :
  (~ HasVideoSegment url /\ videoId url = lit "tiktok_video")
  \/ (exists a b,
        url = a ++ lit "video/" ++ videoId url ++ b
        /\ videoId url <> []
        /\ Forall (fun c => is_digit c = true) (videoId url)
        /\ match b with [] => True | c :: _ => is_digit c = false end
        /\ forall a1 a2, a = a1 ++ a2 -> a2 <> [] ->
             ~ MatchesHere (a2 ++ lit "video/" ++ videoId url ++ b)).
Proof.
  unfold videoId. destruct (match_video url) as [d|] eqn:E.
  - right. destruct (match_video_leftmost url d E) as [a [b [E1 [E2 L]]]].
    destruct (match_video_some url d E) as [N [F _]].
    exists a, b. auto.
  - left. split; [now apply match_video_none | reflexivity].
Qed.

End VideoId.

(* ------------------------------------------------------------------ *)
(** ** The endpoint URLs *)

Section Endpoints.

Lemma hex_digit_unreserved (n : N) :
  (n < 16)%N -> is_unreserved (hex_digit n) = true.
Proof.
  intros H.
  assert (In n (map N.of_nat (seq 0 16))) as I.
  { apply in_map_iff. exists (N.to_nat n). split; [apply N2Nat.id|].
    apply in_seq. lia. }
  exact (proj1 (forallb_forall (fun n => is_unreserved (hex_digit n))
                  (map N.of_nat (seq 0 16))) eq_refl n I).
Qed.

Lemma pct_component (b : N) :
  (b < 256)%N -> Forall (fun c => is_component_char c = true) (pct b).
Proof.
  intros H. unfold pct, is_component_char.
  assert (b / 16 < 16)%N by (apply N.Div0.div_lt_upper_bound; lia).
  assert (b mod 16 < 16)%N by (apply N.mod_lt; lia).
  repeat constructor; rewrite ?hex_digit_unreserved; auto.
Qed.

Lemma utf8_bytes (cp : N) :
  (cp < 1114112)%N -> Forall (fun b => (b < 256)%N) (utf8 cp).
Proof.
  intros H. unfold utf8.
  assert (forall x, x mod 64 < 64)%N by (intros; apply N.mod_lt; lia).
  destruct (N.ltb_spec cp 128); [repeat constructor; lia|].
  destruct (N.ltb_spec cp 2048).
  { assert (cp / 64 < 32)%N by (apply N.Div0.div_lt_upper_bound; lia).
    repeat constructor; try lia; specialize (H0 cp); lia. }
  destruct (N.ltb_spec cp 65536).
  { assert (cp / 4096 < 16)%N by (apply N.Div0.div_lt_upper_bound; lia).
    pose proof (H0 cp). pose proof (H0 (cp / 64)%N).
    repeat constructor; lia. }
  assert (cp / 262144 < 5)%N by (apply N.Div0.div_lt_upper_bound; lia).
  pose proof (H0 cp). pose proof (H0 (cp / 64)%N).
  pose proof (H0 (cp / 4096)%N).
  repeat constructor; lia.
Qed.

Lemma escape_component (cp : N) :
  (cp < 1114112)%N ->
  Forall (fun c => is_component_char c = true) (escape cp).
Proof.
  intros H. unfold escape. apply Forall_flat_map.
  eapply Forall_impl; [|apply (utf8_bytes cp H)].
  intros b Hb. now apply pct_component.
Qed.

Lemma in_range_bounds (lo hi c : char16) :
  in_range lo hi c = true <-> (lo <= c <= hi)%N.
Proof. unfold in_range. now rewrite andb_true_iff, !N.leb_le. Qed.

Lemma encode_from_component (s : jsstring) :
  forall hi u,
  WellSized s ->
  match hi with Some h => is_high_surrogate h = true | None => True end ->
  encode_from hi s = Some u ->
  Forall (fun c => is_component_char c = true) u.
Proof.
  induction s as [|c s IH]; intros hi u W Hh E.
  - destruct hi; simpl in E; [discriminate|]. inversion E. constructor.
  - inversion W as [|? ? Wc Ws]. subst.
    destruct hi as [h|]; cbn [encode_from] in E.
    + destruct (is_low_surrogate c) eqn:L; [|discriminate].
      destruct (encode_from None s) as [u'|] eqn:E'; [|discriminate].
      simpl in E. inversion E. subst. apply Forall_app. split.
      * apply escape_component.
        apply in_range_bounds in Hh, L. lia.
      * apply (IH None u' Ws I E').
    + destruct (is_unreserved c) eqn:U.
      * destruct (encode_from None s) as [u'|] eqn:E'; [|discriminate].
        simpl in E. inversion E. subst. constructor.
        -- unfold is_component_char. now rewrite U.
        -- apply (IH None u' Ws I E').
      * destruct (is_low_surrogate c) eqn:L; [discriminate|].
        destruct (is_high_surrogate c) eqn:H.
        -- apply (IH (Some c) u Ws H E).
        -- destruct (encode_from None s) as [u'|] eqn:E'; [|discriminate].
           simpl in E. inversion E. subst. apply Forall_app. split.
           ++ apply escape_component. lia.
           ++ apply (IH None u' Ws I E').
Qed.

(** The two endpoint URLs differ in the host only, and what stands after
    [?url=] is made of unreserved characters and [%] escapes: whatever the
    source URL holds ([&], [#], [=], spaces), it stays one query value. *)
Theorem endpoints_carry_one_query_value (url : jsstring) (h h' : trace)
    (l : list jsstring) :
  WellSized url ->
  endpoints url h = (Normal l, h') ->
  h' = h
  /\ exists u,
       l = [lit "https://tikwm.com/api/?url=" ++ u;
            lit "https://www.tikwm.com/api/?url=" ++ u]
       /\ encodeURIComponent url = Some u
       /\ Forall (fun c => is_component_char c = true) u
       /\ ~ In 38%N u /\ ~ In 35%N u /\ ~ In 61%N u /\ ~ In 32%N u.
Proof.
  intros W. unfold endpoints.
  destruct (encodeURIComponent url) as [u|] eqn:E; [|discriminate].
  unfold ret. intros R. inversion R. subst. split; [reflexivity|].
  exists u. split; [reflexivity|]. split; [reflexivity|].
  pose proof (encode_from_component url None u W I E) as F.
  split; [exact F|].
  rewrite Forall_forall in F.
  repeat split; intros X; apply F in X; discriminate.
Qed.

Lemma endpoints_carry_one_query_value_witness :
  [] = ([] : trace)
  /\ exists u,
       [Worlds.api1; Worlds.api2]
       = [lit "https://tikwm.com/api/?url=" ++ u;
          lit "https://www.tikwm.com/api/?url=" ++ u]
       /\ encodeURIComponent Worlds.url0 = Some u
       /\ Forall (fun c => is_component_char c = true) u
       /\ ~ In 38%N u /\ ~ In 35%N u /\ ~ In 61%N u /\ ~ In 32%N u.
Proof.
  apply (endpoints_carry_one_query_value Worlds.url0 [] []
           [Worlds.api1; Worlds.api2]).
  - apply Forall_forall. intros c H.
    apply N.ltb_lt.
    exact (proj1 (forallb_forall (fun c => N.ltb c 65536) Worlds.url0)
             eq_refl c H).
  - reflexivity.
Defined.

(** A component made of unreserved characters only is sent as it is. *)
Theorem encodeURIComponent_keeps_unreserved (s : jsstring) :
  Forall (fun c => is_unreserved c = true) s ->
  encodeURIComponent s = Some s.
Proof.
  unfold encodeURIComponent.
  induction 1 as [|c s H _ IH]; [reflexivity|].
  cbn [encode_from]. now rewrite H, IH.
Qed.

Lemma encodeURIComponent_keeps_unreserved_witness :
  encodeURIComponent (lit "www.tiktok.com") = Some (lit "www.tiktok.com").
Proof.
  apply encodeURIComponent_keeps_unreserved.
  apply Forall_forall. intros c H.
  exact (proj1 (forallb_forall is_unreserved (lit "www.tiktok.com"))
           eq_refl c H).
Defined.

End Endpoints.

(* ------------------------------------------------------------------ *)
(** ** What the chain asks *)

Section ChainTrace.
Variable w : World.

Lemma or_type_error_silent {A} (o : option A) (msg : string) (h : trace) :
  exists c, or_type_error o msg h = (c, h).
Proof. destruct o; eexists; reflexivity. Qed.

Lemma data_play_silent (data : value) (h : trace) :
  exists c, data_play data h = (c, h).
Proof.
  unfold data_play. run.
  destruct (get data "data") as [d|]; run; [|eexists; reflexivity].
  destruct (truthy d); [|eexists; reflexivity].
  destruct (get d "play"); eexists; reflexivity.
Qed.

Lemma data_video_silent (data : value) (h : trace) :
  exists c, data_video data h = (c, h).
Proof.
  unfold data_video. run.
  destruct (get data "data") as [d|]; run; [|eexists; reflexivity].
  destruct (get d "play"); run; [|eexists; reflexivity].
  destruct (get d "title"); eexists; reflexivity.
Qed.

Lemma check_msg_silent (data : value) (h : trace) :
  exists c, Server.check_msg data h = (c, h).
Proof.
  unfold Server.check_msg. run.
  destruct (get data "msg") as [m|]; run; [|eexists; reflexivity].
  destruct (truthy m); [|eexists; reflexivity].
  destruct (includes_of m "private") as [[|]|]; run;
    try (eexists; reflexivity).
  destruct (includes_of m "friends") as [[|]|]; run;
    try (eexists; reflexivity).
  destruct (includes_of m "not found") as [[|]|]; run;
    try (eexists; reflexivity).
  destruct (includes_of m "deleted") as [[|]|]; run;
    eexists; reflexivity.
Qed.

(** Whatever the answer, one turn of the loop makes one request and
    throws nothing. *)
Lemma server_endpoint_one_request (a : jsstring) (h : trace) :
  exists r, Server.try_endpoint w a h
            = (Normal r, h ++ [Fetch (api_request a)]).
Proof.
  unfold Server.try_endpoint, fetch. run.
  destruct (net w h (api_request a)) as [m|res]; [eexists; reflexivity|].
  destruct (ok res); cbn [negb]; [|eexists; reflexivity].
  unfold res_json. run.
  destruct (json_body res) as [data|]; [|eexists; reflexivity].
  destruct (data_play_silent data (h ++ [Fetch (api_request a)]))
    as [[p|e] ->]; [|eexists; reflexivity].
  destruct (truthy p).
  - destruct (data_video_silent data (h ++ [Fetch (api_request a)]))
      as [[v|e] ->]; eexists; reflexivity.
  - destruct (check_msg_silent data (h ++ [Fetch (api_request a)]))
      as [[r|e] ->]; eexists; reflexivity.
Qed.

Lemma index_endpoint_one_request (a : jsstring) (h : trace) :
  exists r, Index.try_endpoint w a h
            = (Normal r, h ++ [Fetch (api_request a)]).
Proof.
  unfold Index.try_endpoint, fetch. run.
  destruct (net w h (api_request a)) as [m|res]; [eexists; reflexivity|].
  destruct (ok res); cbn [negb]; [|eexists; reflexivity].
  unfold res_json. run.
  destruct (json_body res) as [data|]; [|eexists; reflexivity].
  destruct (data_play_silent data (h ++ [Fetch (api_request a)]))
    as [[p|e] ->]; [|eexists; reflexivity].
  destruct (truthy p); [|eexists; reflexivity].
  destruct (data_video_silent data (h ++ [Fetch (api_request a)]))
    as [[v|e] ->]; eexists; reflexivity.
Qed.

Lemma candidate_one_request (id c : jsstring) (h : trace) :
  exists r, Index.try_candidate w id c h
            = (Normal r, h ++ [Fetch (Index.head_request c)]).
Proof.
  unfold Index.try_candidate, fetch. run.
  destruct (net w h (Index.head_request c)) as [m|res];
    [eexists; reflexivity|].
  destruct (ok res && Index.is_video res); eexists; reflexivity.
Qed.

(** A turn of the loop never returns [null]: that is for the end of the
    loop. *)
Lemma server_endpoint_not_null (a : jsstring) (h h' : trace) :
  Server.try_endpoint w a h <> (Normal (Some Server.NULL), h').
Proof.
  unfold Server.try_endpoint, fetch. run.
  destruct (net w h (api_request a)) as [m|res]; [discriminate|].
  destruct (ok res); cbn [negb]; [|discriminate].
  unfold res_json. run.
  destruct (json_body res) as [data|]; [|discriminate].
  destruct (data_play_silent data (h ++ [Fetch (api_request a)]))
    as [[p|e] ->]; [|discriminate].
  destruct (truthy p).
  - destruct (data_video_silent data (h ++ [Fetch (api_request a)]))
      as [[v|e] ->]; discriminate.
  - unfold Server.check_msg. run.
    destruct (get data "msg") as [m|]; run; [|discriminate].
    destruct (truthy m); [|discriminate].
    destruct (includes_of m "private") as [[|]|]; run; try discriminate.
    destruct (includes_of m "friends") as [[|]|]; run; try discriminate.
    destruct (includes_of m "not found") as [[|]|]; run; try discriminate.
    destruct (includes_of m "deleted") as [[|]|]; run; discriminate.
Qed.

Lemma server_chain_prefix (l : list jsstring) :
  forall h, exists r k,
    Server.try_endpoints w l h = (Normal r, h ++ asked_all (firstn k l))
    /\ k <= length l
    /\ (r = Server.NULL -> k = length l)
    /\ (l <> [] -> 1 <= k).
Proof.
  induction l as [|a l IH]; intros h.
  - exists Server.NULL, 0. simpl. unfold ret. rewrite app_nil_r.
    repeat split; auto. congruence.
  - destruct (server_endpoint_one_request a h) as [[r|] E];
      cbn [Server.try_endpoints]; run; rewrite E.
    + exists r, 1. cbn. split; [reflexivity|]. split; [lia|].
      split; [|lia].
      intros ->. now apply server_endpoint_not_null in E.
    + destruct (IH (h ++ [Fetch (api_request a)]))
        as [r' [k [E' [L [N _]]]]].
      exists r', (S k). rewrite E'. cbn [firstn asked_all map length].
      rewrite <- app_assoc. split; [reflexivity|]. split; [lia|].
      split; [|lia].
      intros R. now rewrite (N R).
Qed.

Lemma index_chain_prefix (l : list jsstring) :
  forall h, exists r k,
    Index.try_endpoints w l h = (Normal r, h ++ asked_all (firstn k l))
    /\ k <= length l
    /\ (r = None -> k = length l)
    /\ (l <> [] -> 1 <= k).
Proof.
  induction l as [|a l IH]; intros h.
  - exists None, 0. simpl. unfold ret. rewrite app_nil_r.
    repeat split; auto. congruence.
  - destruct (index_endpoint_one_request a h) as [[v|] E];
      cbn [Index.try_endpoints]; run; rewrite E.
    + exists (Some v), 1. cbn. split; [reflexivity|].
      split; [lia|]. split; [discriminate | lia].
    + destruct (IH (h ++ [Fetch (api_request a)]))
        as [r' [k [E' [L [N _]]]]].
      exists r', (S k). rewrite E'. cbn [firstn asked_all map length].
      rewrite <- app_assoc. split; [reflexivity|]. split; [lia|].
      split; [|lia].
      intros R. now rewrite (N R).
Qed.

Lemma candidates_prefix (id : jsstring) (l : list jsstring) :
  forall h, exists r k,
    Index.try_candidates w id l h
    = (Normal r, h ++ probed_all (firstn k l))
    /\ k <= length l.
Proof.
  induction l as [|c l IH]; intros h.
  - exists None, 0. simpl. unfold ret. rewrite app_nil_r. auto.
  - destruct (candidate_one_request id c h) as [[v|] E];
      cbn [Index.try_candidates]; run; rewrite E.
    + exists (Some v), 1. cbn. split; [reflexivity | lia].
    + destruct (IH (h ++ [Fetch (Index.head_request c)]))
        as [r' [k [E' L]]].
      exists r', (S k). rewrite E'. cbn [firstn probed_all map length].
      rewrite <- app_assoc. split; [reflexivity | lia].
Qed.

End ChainTrace.

(* ------------------------------------------------------------------ *)
(** ** No request is made twice *)

Section NoRetry.

Import Worlds Scenarios.

(** The chain of either entry point asks [tikwm.com] first and
    [www.tikwm.com] second or not at all, each once and with no request
    in between, and throws nothing; it comes back with [null] only after
    both were asked.  On a URL that [encodeURIComponent] refuses it throws
    [URI malformed] before any request. *)
Theorem chain_asks_each_endpoint_once (w : World) (url : jsstring)
    (h : trace) :
  (encodeURIComponent url = None ->
     Server.tryTikWmAPI w url h = (Throw (Error (lit "URI malformed")), h)
     /\ Index.tryTikWmAPI w url h
        = (Throw (Error (lit "URI malformed")), h))
  /\ (forall u, encodeURIComponent url = Some u ->
      let l := [lit "https://tikwm.com/api/?url=" ++ u;
                lit "https://www.tikwm.com/api/?url=" ++ u] in
      (exists r k,
         Server.tryTikWmAPI w url h
         = (Normal r, h ++ asked_all (firstn k l))
         /\ 1 <= k <= 2 /\ (r = Server.NULL -> k = 2))
      /\ (exists r k,
         Index.tryTikWmAPI w url h
         = (Normal r, h ++ asked_all (firstn k l))
         /\ 1 <= k <= 2 /\ (r = None -> k = 2))).
Proof.
  split.
  - intros E. unfold Server.tryTikWmAPI, Index.tryTikWmAPI, endpoints.
    rewrite E. split; reflexivity.
  - intros u E l.
    unfold Server.tryTikWmAPI, Index.tryTikWmAPI, endpoints. rewrite E.
    run. fold l. split.
    + destruct (server_chain_prefix w l h) as [r [k [R [L [N P]]]]].
      exists r, k. split; [exact R|]. split; [|exact N].
      split; [apply P; discriminate | exact L].
    + destruct (index_chain_prefix w l h) as [r [k [R [L [N P]]]]].
      exists r, k. split; [exact R|]. split; [|exact N].
      split; [apply P; discriminate | exact L].
Qed.

Lemma chain_asks_each_endpoint_once_witness :
  Server.tryTikWmAPI w_second broken_url []
  = (Throw (Error (lit "URI malformed")), [])
  /\ Index.tryTikWmAPI w_second broken_url []
     = (Throw (Error (lit "URI malformed")), []).
Proof.
  apply (proj1 (chain_asks_each_endpoint_once w_second broken_url [])).
  reflexivity.
Defined.

End NoRetry.

(* ------------------------------------------------------------------ *)
(** ** What one download does, from the probe to the file *)

Section PipelineShape.
Variable w : World.

Lemma retrieve_events (target : value) (file : filepath) (h : trace) :
  exists c tail,
    retrieve w target file h = (c, h ++ tail)
    /\ RetrievalEvents tail
    /\ (c = Normal tt ->
        tail = [Fetch (video_request target); Pipe file]).
Proof.
  pose proof (retrieve_cases w target file h) as C. cbn zeta in C.
  destruct (net w h (video_request target)) as [m|res].
  - eexists _, _. split; [exact C|]. split; [constructor | discriminate].
  - destruct (ok res).
    + destruct (pipe w (h ++ [Fetch (video_request target)]) file);
        eexists _, _; (split; [exact C|]); cbn [app];
        (split; [constructor|]); [discriminate | reflexivity].
    + eexists _, _. split; [exact C|]. split; [constructor | discriminate].
Qed.


End PipelineShape.

Section PipelineClaims.

Import Worlds Scenarios.


(** When the probe succeeded and the chain came back with one of its
    three failures, the outcome is a failure with the matching text and
    nothing is retrieved: the trace ends where the chain left it. *)
Theorem server_chain_failures_surface (w : World)
    (url downloadPath : jsstring) (h h2 : trace) (r : Server.chain_result) :
  reachable w h = true ->
  Server.tryTikWmAPI w url (h ++ [Fetch probe_request]) = (Normal r, h2) ->
  (r = Server.PRIVATE ->
     Server.downloadTikTokVideo w url downloadPath h
     = (Normal (Server.Failure (lit
          "This video is private or friends-only and cannot be downloaded")),
        h2))
  /\ (r = Server.NOT_FOUND ->
      Server.downloadTikTokVideo w url downloadPath h
      = (Normal (Server.Failure (lit
           "Video not found. It may have been deleted or the URL is incorrect")),
         h2))
  /\ (r = Server.NULL ->
      Server.downloadTikTokVideo w url downloadPath h
      = (Normal (Server.Failure (lit
           "Failed to fetch video data from all APIs")), h2)).
Proof.
  intros R C.
  repeat split; intros ->; unfold Server.downloadTikTokVideo; run;
    rewrite server_probe, R; cbn [negb]; now rewrite C.
Qed.

Lemma server_chain_failures_surface_witness :
  Server.downloadTikTokVideo w_private url0 (lit "/downloads") []
  = (Normal (Server.Failure (lit
       "This video is private or friends-only and cannot be downloaded")),
     [Fetch probe_request; Fetch (api_request api1)]).
Proof.
  exact (proj1 (server_chain_failures_surface w_private url0
                  (lit "/downloads") []
                  [Fetch probe_request; Fetch (api_request api1)]
                  Server.PRIVATE eq_refl eq_refl) eq_refl).
Defined.

(** A title that is not a string (a number, an object, [true]) makes the
    download fail before the media is requested. *)
Theorem server_title_must_be_a_string (w : World)
    (url downloadPath : jsstring) (h h2 : trace) (v : videoData) :
  reachable w h = true ->
  Server.tryTikWmAPI w url (h ++ [Fetch probe_request])
  = (Normal (Server.Resolved v), h2) ->
  (forall t, title v <> VStr t) ->
  exists m,
    Server.downloadTikTokVideo w url downloadPath h
    = (Normal (Server.Failure m), h2).
Proof.
  intros R C T. unfold Server.downloadTikTokVideo. run.
  rewrite server_probe, R. cbn [negb]. rewrite C.
  destruct (title v) as [| | | | t | |]; cbn [title_string]; run;
    try (eexists; reflexivity).
  now elim (T t).
Qed.

Lemma server_title_must_be_a_string_witness :
  exists m,
    Server.downloadTikTokVideo w_numbered url0 (lit "/downloads") []
    = (Normal (Server.Failure m),
       [Fetch probe_request; Fetch (api_request api1)]).
Proof.
  apply (server_title_must_be_a_string w_numbered url0 (lit "/downloads")
           [] [Fetch probe_request; Fetch (api_request api1)]
           {| videoUrl := VStr media; title := VNum (7 # 1) |}
           eq_refl eq_refl).
  intros t. cbn. discriminate.
Defined.

(** A URL that [encodeURIComponent] refuses (it has half of a surrogate
    pair) costs the probe and nothing else: the service answers
    [URI malformed], the command stops. *)
Theorem malformed_url_stops_after_the_probe (w : World)
    (url downloadPath : jsstring) (h : trace) :
  reachable w h = true ->
  encodeURIComponent url = None ->
  Server.downloadTikTokVideo w url downloadPath h
  = (Normal (Server.Failure (lit "URI malformed")),
     h ++ [Fetch probe_request])
  /\ Index.downloadTikTok w downloadPath url h
     = (Normal tt, h ++ [Fetch probe_request]).
Proof.
  intros R E. split.
  - unfold Server.downloadTikTokVideo. run. rewrite server_probe, R.
    cbn [negb]. unfold Server.tryTikWmAPI, endpoints. now rewrite E.
  - unfold Index.downloadTikTok. run.
    destruct (index_probe w h) as [b [-> T]]. rewrite T, R. cbn [negb].
    unfold Index.tryTikWmAPI, endpoints. now rewrite E.
Qed.

Lemma malformed_url_stops_after_the_probe_witness :
  Server.downloadTikTokVideo w_second broken_url (lit "/downloads") []
  = (Normal (Server.Failure (lit "URI malformed")),
     [] ++ [Fetch probe_request])
  /\ Index.downloadTikTok w_second (lit "/downloads") broken_url []
     = (Normal tt, [] ++ [Fetch probe_request]).
Proof.
  exact (malformed_url_stops_after_the_probe w_second broken_url
           (lit "/downloads") [] eq_refl eq_refl).
Defined.

End PipelineClaims.

(* ------------------------------------------------------------------ *)
(** ** Messages the chain does not read *)

Section Messages.

Import Worlds Scenarios.

(** A message that is truthy and is neither a string nor an array (an
    error code sent as a number, an object, [true]) has no [includes]:
    the [TypeError] is caught in the loop and the endpoint counts as
    abstaining. *)
Theorem server_skips_unreadable_messages (w : World) (a : jsstring)
    (rest : list jsstring) (h : trace) (res : response) (data msg : value) :
  net w h (api_request a) = Responds res ->
  ok res = true ->
  json_body res = Some data ->
  play_url data = None ->
  get data "msg" = Some msg ->
  truthy msg = true ->
  match msg with VStr _ | VArr _ => False | _ => True end ->
  Server.try_endpoints w (a :: rest) h
  = Server.try_endpoints w rest (h ++ [Fetch (api_request a)]).
Proof.
  intros E Hok Hj Hp G T K.
  cbn [Server.try_endpoints]. run.
  rewrite (server_endpoint_no_play w a h res data E Hok Hj Hp), G.
  unfold Server.check_msg. run. rewrite G. run. rewrite T.
  destruct msg; try contradiction; reflexivity.
Qed.

Lemma server_skips_unreadable_messages_witness :
  Server.try_endpoints w_code_msg [api1; api2] []
  = Server.try_endpoints w_code_msg [api2] ([] ++ [Fetch (api_request api1)]).
Proof.
  exact (server_skips_unreadable_messages w_code_msg api1 [api2] []
           (response_of 200 "OK" None (Some payload_code_msg))
           payload_code_msg (VNum (404 # 1))
           eq_refl eq_refl eq_refl eq_refl eq_refl eq_refl I).
Defined.

(** The chain of [index.mjs] reads no message: a 2xx payload without a
    play URL sends it to the next endpoint whatever the payload says,
    also where the chain of [server.mjs] stops with ['PRIVATE']. *)
Theorem index_reads_no_message (w : World) (a : jsstring)
    (rest : list jsstring) (h : trace) (res : response) (data : value) :
  net w h (api_request a) = Responds res ->
  ok res = true ->
  json_body res = Some data ->
  play_url data = None ->
  Index.try_endpoints w (a :: rest) h
  = Index.try_endpoints w rest (h ++ [Fetch (api_request a)]).
Proof.
  intros E Hok Hj Hp. cbn [Index.try_endpoints]. run.
  unfold Index.try_endpoint. run.
  rewrite (fetch_responds w _ h res E), Hok. cbn [negb].
  unfold res_json. rewrite Hj. run.
  destruct (data_play_none data (h ++ [Fetch (api_request a)]) Hp)
    as [[v [-> Tv]] | [e [-> G]]]; [now rewrite Tv | reflexivity].
Qed.

Lemma index_reads_no_message_witness :
  Index.try_endpoints w_private [api1; api2] []
  = Index.try_endpoints w_private [api2] ([] ++ [Fetch (api_request api1)]).
Proof.
  exact (index_reads_no_message w_private api1 [api2] []
           (response_of 200 "OK" None
              (Some (payload_msg "This video is private")))
           (payload_msg "This video is private")
           eq_refl eq_refl eq_refl eq_refl).
Defined.

End Messages.

(* ------------------------------------------------------------------ *)
(** ** More on the batch loop *)

Section Trim.

Lemma trimStart_keeps (a : jsstring) (c : char16) (r : jsstring) :
  is_space c = false ->
  exists a2, trimStart (a ++ c :: r) = a2 ++ c :: r.
Proof.
  intros H. induction a as [|x a IH]; cbn [app trimStart].
  - rewrite H. now exists [].
  - destruct (is_space x); [exact IH|]. now exists (x :: a).
Qed.

(** Trimming keeps what stands between two characters that are not
    white space. *)
Lemma trim_keeps (a m b : jsstring) (c e : char16) :
  is_space c = false ->
  is_space e = false ->
  exists a2 b2,
    trim (a ++ (c :: m ++ [e]) ++ b) = a2 ++ (c :: m ++ [e]) ++ b2.
Proof.
  intros Hc He. unfold trim, trimEnd.
  cbn [app]. destruct (trimStart_keeps a c ((m ++ [e]) ++ b) Hc) as [a2 ->].
  replace (rev (a2 ++ c :: (m ++ [e]) ++ b))
    with (rev b ++ e :: rev (a2 ++ c :: m)).
  - destruct (trimStart_keeps (rev b) e (rev (a2 ++ c :: m)) He) as [b2 ->].
    exists a2, (rev b2).
    rewrite rev_app_distr. cbn [rev]. rewrite rev_involutive.
    rewrite <- !app_assoc. reflexivity.
  - rewrite !rev_app_distr. cbn [rev]. rewrite !rev_app_distr.
    cbn [rev app]. rewrite <- !app_assoc. reflexivity.
Qed.

Lemma trim_keeps_marker (url : jsstring) :
  Substring (lit "tiktok.com") url ->
  Substring (lit "tiktok.com") (trim url).
Proof.
  intros [a [b ->]].
  destruct (trim_keeps a (lit "iktok.co") b 116 109 eq_refl eq_refl)
    as [a2 [b2 E]].
  exists a2, b2. exact E.
Qed.

End Trim.

Section BatchMore.
Variable w : World.
Variable targetPath : jsstring.

Import Server.

Lemma download_item_valid (url : jsstring) (h : trace) :
  Substring (lit "tiktok.com") url ->
  exists o h',
    downloadTikTokVideo w (trim url) targetPath h = (Normal o, h')
    /\ download_item w targetPath (VStr url) h
       = (Normal {| entry_url := trim url; entry_result := o |}, h').
Proof.
  intros S.
  destruct (downloadTikTokVideo_total w targetPath (trim url) h)
    as [o [h' E]].
  exists o, h'. split; [exact E|].
  unfold download_item, url_trim. run. rewrite includes_of_str.
  pose proof (trim_keeps_marker url S) as [a [b T]].
  assert (truthy (VStr (trim url)) = true) as ->.
  { rewrite T. destruct a; reflexivity. }
  apply includes_spec in S. run. rewrite S, E. reflexivity.
Qed.



Lemma download_loop_stops (urls : list jsstring) :
  forall (v : value) (post : list value) results h rs h1,
  (forall s, v <> VStr s) ->
  download_loop w targetPath (map VStr urls) results h = (Normal rs, h1) ->
  download_loop w targetPath (map VStr urls ++ v :: post) results h
  = (Throw (Error (lit "url.trim is not a function")), h1).
Proof.
  induction urls as [|u urls IH]; intros v post results h rs h1 V E.
  - cbn in E. unfold ret in E. inversion E. subst.
    cbn [map app download_loop]. run. unfold download_item, url_trim.
    destruct v; try reflexivity. now elim (V s).
  - cbn [map app download_loop] in *. revert E. run.
    destruct (download_item w targetPath (VStr u) h) as [[e|x] h0];
      [|discriminate].
    intros E. now apply (IH v post _ _ rs h1 V).
Qed.

End BatchMore.

Section BatchMoreClaims.

Import Worlds Scenarios Server.

(** A URL with [tiktok.com] in it is downloaded: the loop hands its
    trimmed form, which still has [tiktok.com] in it, to
    [downloadTikTokVideo] and pushes the outcome under the trimmed URL.
    (The test [url.trim()] of the condition never decides for such a
    URL.) *)
Theorem valid_url_is_downloaded_trimmed (w : World)
    (targetPath url : jsstring) (h : trace) :
  Substring (lit "tiktok.com") url ->
  Substring (lit "tiktok.com") (trim url)
  /\ exists o h',
       downloadTikTokVideo w (trim url) targetPath h = (Normal o, h')
       /\ download_item w targetPath (VStr url) h
          = (Normal {| entry_url := trim url; entry_result := o |}, h').
Proof.
  intros S. split; [now apply trim_keeps_marker|].
  now apply download_item_valid.
Qed.

Lemma valid_url_is_downloaded_trimmed_witness :
  Substring (lit "tiktok.com")
    (trim (lit " https://www.tiktok.com/@u/video/111 "))
  /\ exists o h',
       downloadTikTokVideo w_second
         (trim (lit " https://www.tiktok.com/@u/video/111 "))
         (lit "/downloads") [] = (Normal o, h')
       /\ download_item w_second (lit "/downloads")
            (VStr (lit " https://www.tiktok.com/@u/video/111 ")) []
          = (Normal {| entry_url :=
                         trim (lit " https://www.tiktok.com/@u/video/111 ");
                       entry_result := o |}, h').
Proof.
  apply (valid_url_is_downloaded_trimmed w_second (lit "/downloads")
           (lit " https://www.tiktok.com/@u/video/111 ") []).
  exists (lit " https://www."), (lit "/@u/video/111 "). reflexivity.
Defined.


(** An element of [urls] that is not a string stops the loop with a
    [TypeError]: the strings before it have been processed (their
    requests are made, their files written), the elements after it are
    not looked at, and no list of results comes back. *)
Theorem non_string_url_aborts_the_batch (w : World) (targetPath : jsstring)
    (pre : list jsstring) (v : value) (post : list value) (h : trace) :
  (forall s, v <> VStr s) ->
  exists rs h1 e,
    download_all w targetPath (map VStr pre) h = (Normal rs, h1)
    /\ download_all w targetPath (map VStr pre ++ v :: post) h
       = (Throw e, h1).
Proof.
  intros V. unfold download_all.
  destruct (download_loop_strings w targetPath pre [] h)
    as [rs [h1 [E _]]].
  exists rs, h1, (Error (lit "url.trim is not a function")).
  split; [exact E|].
  now apply (download_loop_stops w targetPath pre v post [] h rs h1 V).
Qed.

Lemma non_string_url_aborts_the_batch_witness :
  exists rs h1 e,
    download_all w_second (lit "/downloads") (map VStr [url0]) []
    = (Normal rs, h1)
    /\ download_all w_second (lit "/downloads")
         (map VStr [url0] ++ VNum (7 # 1) :: [VStr url0]) []
       = (Throw e, h1).
Proof.
  apply (non_string_url_aborts_the_batch w_second (lit "/downloads")
           [url0] (VNum (7 # 1)) [VStr url0] []).
  intros s. discriminate.
Defined.

End BatchMoreClaims.

(* ------------------------------------------------------------------ *)
(** ** The request handler *)

Section HandlerFacts.
Variable w : World.
Variable d : Handler.Disk.
Variable default_downloads : jsstring.

Import Handler.




End HandlerFacts.

Section HandlerClaims.

Import Worlds Scenarios Handler.




(** A body whose [urls] is missing, is not an array, or is an empty
    array is answered [400 No URLs provided], and nothing is requested. *)
Theorem missing_urls_are_refused (w : World) (d : Disk)
    (default_downloads : jsstring) (data urls : value) (h : trace) :
  get data "urls" = Some urls ->
  match urls with VArr (_ :: _) => False | _ => True end ->
  server w d default_downloads (lit "POST") (VStr (lit "/api/download"))
    (Parsed data) h
  = (Normal (send_json 400 (JsonError (lit "No URLs provided"))), h).
Proof.
  intros G U.
  change (api_download w d default_downloads (Parsed data) h
          = (Normal (send_json 400 (JsonError (lit "No URLs provided"))), h)).
  unfold api_download. run. rewrite G. run.
  assert (exists p, get data "downloadPath" = Some p) as [p ->].
  { destruct data; try discriminate; eexists; reflexivity. }
  run.
  assert (url_list urls = None) as ->.
  { destruct urls as [| | | | | [|x l] |]; try reflexivity. contradiction. }
  reflexivity.
Qed.

Lemma missing_urls_are_refused_witness :
  server w_second disk_ok (lit "/app/downloads") (lit "POST")
    (VStr (lit "/api/download")) (request_of [] VUndefined) []
  = (Normal (send_json 400 (JsonError (lit "No URLs provided"))), []).
Proof.
  exact (missing_urls_are_refused w_second disk_ok (lit "/app/downloads")
           (VObj [(lit "urls", VArr []); (lit "downloadPath", VUndefined)])
           (VArr []) [] eq_refl I).
Defined.

(** A body that does not parse, or that is [null], is answered [500] with
    [Server error: ] and the message, and nothing is requested. *)
Theorem unreadable_bodies_are_server_errors (w : World) (d : Disk)
    (default_downloads : jsstring) (m : jsstring) (h : trace) :
  server w d default_downloads (lit "POST") (VStr (lit "/api/download"))
    (SyntaxError m) h
  = (Normal (send_json 500 (JsonError (lit "Server error: " ++ m))), h)
  /\ exists m',
       server w d default_downloads (lit "POST")
         (VStr (lit "/api/download")) (Parsed VNull) h
       = (Normal (send_json 500 (JsonError (lit "Server error: " ++ m'))),
          h).
Proof.
  split; [reflexivity|]. eexists. reflexivity.
Qed.

(** When the target directory is not there and cannot be made, the
    answer is [400 Cannot create download directory: ...] and nothing is
    requested; so it is for every [downloadPath] that is truthy and not
    a string. *)
Theorem unusable_directory_is_refused (w : World) (d : Disk)
    (default_downloads : jsstring) (data : value) (u : value)
    (us : list value) (p : value) (h : trace) :
  get data "urls" = Some (VArr (u :: us)) ->
  get data "downloadPath" = Some p ->
  (forall dir m,
     js_or p (VStr default_downloads) = VStr dir ->
     existsSync d dir = false ->
     mkdirSync d dir = Some m ->
     server w d default_downloads (lit "POST") (VStr (lit "/api/download"))
       (Parsed data) h
     = (Normal (send_json 400
          (JsonError (lit "Cannot create download directory: " ++ m))), h))
  /\ (truthy p = true ->
      (forall dir, p <> VStr dir) ->
      server w d default_downloads (lit "POST") (VStr (lit "/api/download"))
        (Parsed data) h
      = (Normal (send_json 400
           (JsonError (lit "Cannot create download directory: "
                       ++ invalid_path d p))), h)).
Proof.
  intros G P. split.
  - intros dir m T E K.
    change (api_download w d default_downloads (Parsed data) h
            = (Normal (send_json 400
                 (JsonError (lit "Cannot create download directory: " ++ m))),
               h)).
    unfold api_download. run. rewrite G. run. rewrite P. run.
    cbn [url_list]. unfold download_into. rewrite T.
    cbn [exists_path make_path]. now rewrite E, K.
  - intros T N.
    change (api_download w d default_downloads (Parsed data) h
            = (Normal (send_json 400
                 (JsonError (lit "Cannot create download directory: "
                             ++ invalid_path d p))), h)).
    unfold api_download. run. rewrite G. run. rewrite P. run.
    cbn [url_list]. unfold download_into, js_or. rewrite T.
    destruct p; try reflexivity. now elim (N s).
Qed.

Lemma unusable_directory_is_refused_witness :
  server w_second disk_readonly (lit "/app/downloads") (lit "POST")
    (VStr (lit "/api/download"))
    (request_of [VStr url0] (VStr (lit "/root/videos"))) []
  = (Normal (send_json 400
       (JsonError (lit "Cannot create download directory: "
                   ++ lit "EACCES: permission denied"))), []).
Proof.
  exact (proj1 (unusable_directory_is_refused w_second disk_readonly
                  (lit "/app/downloads")
                  (VObj [(lit "urls", VArr [VStr url0]);
                         (lit "downloadPath", VStr (lit "/root/videos"))])
                  (VStr url0) [] (VStr (lit "/root/videos")) []
                  eq_refl eq_refl)
           (lit "/root/videos") (lit "EACCES: permission denied")
           eq_refl eq_refl eq_refl).
Defined.

(** A non-empty list of strings, with a target directory that is there
    or can be made, is answered [200] with one result per URL, in order,
    whatever the outcomes of the items. *)
Theorem batch_is_answered_200 (w : World) (d : Disk)
    (default_downloads : jsstring) (data : value) (u : jsstring)
    (us : list jsstring) (p : value) (dir : jsstring) (h : trace) :
  get data "urls" = Some (VArr (map VStr (u :: us))) ->
  get data "downloadPath" = Some p ->
  js_or p (VStr default_downloads) = VStr dir ->
  existsSync d dir = true \/ mkdirSync d dir = None ->
  exists rs h',
    Server.download_all w dir (map VStr (u :: us)) h = (Normal rs, h')
    /\ server w d default_downloads (lit "POST")
         (VStr (lit "/api/download")) (Parsed data) h
       = (Normal (send_json 200 (JsonResults rs)), h')
    /\ length rs = S (length us)
    /\ map Server.entry_url rs = map trim (u :: us).
Proof.
  intros G P T D.
  destruct (download_loop_strings w dir (u :: us) [] h)
    as [rs [h' [E [_ [L U]]]]].
  exists rs, h'. split; [exact E|]. split; [|split; [exact L | exact U]].
  change (api_download w d default_downloads (Parsed data) h
          = (Normal (send_json 200 (JsonResults rs)), h')).
  unfold api_download. run. rewrite G. run. rewrite P. run.
  cbn [map url_list]. unfold download_into. rewrite T.
  cbn [exists_path make_path].
  assert ((if existsSync d dir then None else mkdirSync d dir) = None) as ->.
  { destruct D as [-> | ->]; [reflexivity|].
    destruct (existsSync d dir); reflexivity. }
  run. unfold Server.download_all. cbn [map] in E. now rewrite E.
Qed.

Lemma batch_is_answered_200_witness :
  exists rs h',
    Server.download_all w_second (lit "/app/downloads")
      (map VStr [url0; lit "not-a-url"]) [] = (Normal rs, h')
    /\ server w_second disk_ok (lit "/app/downloads") (lit "POST")
         (VStr (lit "/api/download"))
         (request_of [VStr url0; VStr (lit "not-a-url")] VUndefined) []
       = (Normal (send_json 200 (JsonResults rs)), h')
    /\ length rs = 2
    /\ map Server.entry_url rs = map trim [url0; lit "not-a-url"].
Proof.
  apply (batch_is_answered_200 w_second disk_ok (lit "/app/downloads")
           (VObj [(lit "urls", VArr [VStr url0; VStr (lit "not-a-url")]);
                  (lit "downloadPath", VUndefined)])
           url0 [lit "not-a-url"] VUndefined (lit "/app/downloads") []
           eq_refl eq_refl eq_refl).
  left. reflexivity.
Defined.

(** An element of [urls] that is not a string turns the whole answer
    into a [500 Server error: ...]: the results of
    the strings before it are dropped, although their downloads have been
    made. *)
Theorem non_string_url_is_a_server_error (w : World) (d : Disk)
    (default_downloads : jsstring) (data : value) (pre : list jsstring)
    (v : value) (post : list value) (p : value) (dir : jsstring)
    (h : trace) :
  get data "urls" = Some (VArr (map VStr pre ++ v :: post)) ->
  get data "downloadPath" = Some p ->
  js_or p (VStr default_downloads) = VStr dir ->
  existsSync d dir = true \/ mkdirSync d dir = None ->
  (forall s, v <> VStr s) ->
  exists rs h1 m,
    Server.download_all w dir (map VStr pre) h = (Normal rs, h1)
    /\ server w d default_downloads (lit "POST")
         (VStr (lit "/api/download")) (Parsed data) h
       = (Normal (send_json 500 (JsonError (lit "Server error: " ++ m))),
          h1).
Proof.
  intros G P T D V.
  destruct (download_loop_strings w dir pre [] h) as [rs [h1 [E _]]].
  exists rs, h1, (lit "url.trim is not a function"). split; [exact E|].
  change (api_download w d default_downloads (Parsed data) h
          = (Normal (send_json 500
               (JsonError (lit "Server error: "
                           ++ lit "url.trim is not a function"))), h1)).
  unfold api_download. run. rewrite G. run. rewrite P. run.
  assert (url_list (VArr (map VStr pre ++ v :: post))
          = Some (map VStr pre ++ v :: post)) as ->.
  { destruct pre; reflexivity. }
  unfold download_into. rewrite T. cbn [exists_path make_path].
  assert ((if existsSync d dir then None else mkdirSync d dir) = None) as ->.
  { destruct D as [-> | ->]; [reflexivity|].
    destruct (existsSync d dir); reflexivity. }
  run. unfold Server.download_all.
  now rewrite (download_loop_stops w dir pre v post [] h rs h1 V E).
Qed.

Lemma non_string_url_is_a_server_error_witness :
  exists rs h1 m,
    Server.download_all w_second (lit "/app/downloads")
      (map VStr [url0]) [] = (Normal rs, h1)
    /\ server w_second disk_ok (lit "/app/downloads") (lit "POST")
         (VStr (lit "/api/download"))
         (request_of [VStr url0; VNum (7 # 1)] VUndefined) []
       = (Normal (send_json 500 (JsonError (lit "Server error: " ++ m))),
          h1).
Proof.
  apply (non_string_url_is_a_server_error w_second disk_ok
           (lit "/app/downloads")
           (VObj [(lit "urls", VArr [VStr url0; VNum (7 # 1)]);
                  (lit "downloadPath", VUndefined)])
           [url0] (VNum (7 # 1)) [] VUndefined (lit "/app/downloads") []
           eq_refl eq_refl eq_refl).
  - left. reflexivity.
  - intros s. discriminate.
Defined.

End HandlerClaims.

(* ------------------------------------------------------------------ *)
(** ** The command line *)

Section CommandLine.

Import Worlds Scenarios.

(** The events of one run of [downloadTikTok]. *)
Lemma index_download_shape (w : World) (dirname url : jsstring)
    (h : trace) :
  exists l c tail,
    Index.downloadTikTok w dirname url h
    = (Normal tt,
       h ++ Fetch probe_request :: asked_all l ++ probed_all c ++ tail)
    /\ length l <= 2 /\ length c <= 2
    /\ (c <> [] -> length l = 2)
    /\ RetrievalEvents tail.
Proof.
  assert (Z : forall l, length l <= 2 ->
    exists l' c tail,
      (Normal tt, (h ++ [Fetch probe_request]) ++ asked_all l)
      = (Normal tt,
         h ++ Fetch probe_request :: asked_all l' ++ probed_all c ++ tail)
      /\ length l' <= 2 /\ length c <= 2
      /\ (c <> [] -> length l' = 2) /\ RetrievalEvents tail).
  { intros l L. exists l, [], []. rewrite <- app_assoc.
    cbn [app probed_all map]. rewrite app_nil_r.
    split; [reflexivity|]. split; [exact L|]. split; [cbn; lia|].
    split; [congruence | constructor]. }
  unfold Index.downloadTikTok. run.
  destruct (index_probe w h) as [b [-> T]].
  destruct (truthy b); cbn [negb].
  2:{ specialize (Z [] ltac:(cbn; lia)). cbn [asked_all map] in Z.
      rewrite app_nil_r in Z. exact Z. }
  unfold Index.tryTikWmAPI, endpoints.
  destruct (encodeURIComponent url) as [u|]; run.
  2:{ specialize (Z [] ltac:(cbn; lia)). cbn [asked_all map] in Z.
      rewrite app_nil_r in Z. exact Z. }
  match goal with |- context [Index.try_endpoints w ?l ?h0] =>
    destruct (index_chain_prefix w l h0) as [r [k [-> [L [N _]]]]];
    set (asked := firstn k l);
    assert (LA : length asked <= 2)
      by (unfold asked; rewrite length_firstn; cbn in *; lia);
    assert (NA : r = None -> length asked = 2)
      by (intros R; unfold asked; rewrite length_firstn, (N R); reflexivity)
  end.
  destruct r as [v|].
  - (* resolved by the chain *)
    destruct (title v) as [| | | | t | |]; cbn [title_string]; run;
      try (apply Z; exact LA).
    match goal with |- context [retrieve w ?a ?f ?h0] =>
      destruct (retrieve_events w a f h0) as [c [tail [-> [RE _]]]]
    end.
    exists asked, [], tail. rewrite <- !app_assoc. cbn [app probed_all map].
    destruct c as [[]|e]; repeat split; auto; try (cbn; lia); congruence.
  - (* the fallback *)
    specialize (NA eq_refl).
    unfold Index.tryAlternativeAPI. run.
    destruct (match_video url) as [id|] eqn:Mv; run.
    2:{ apply Z. exact LA. }
    match goal with |- context [Index.try_candidates w id ?cs ?h0] =>
      destruct (candidates_prefix w id cs h0) as [r [k2 [-> L2]]]
    end.
    set (probed := firstn k2 (Index.possibleVideoUrls id)).
    assert (LP : length probed <= 2)
      by (unfold probed; rewrite length_firstn; cbn in *; lia).
    destruct r as [v|].
    + destruct (title v) as [| | | | t | |]; cbn [title_string]; run;
        try (exists asked, probed, []; rewrite <- !app_assoc;
             cbn [app]; rewrite app_nil_r;
             repeat split; auto; constructor).
      match goal with |- context [retrieve w ?a ?f ?h0] =>
        destruct (retrieve_events w a f h0) as [c [tail [-> [RE _]]]]
      end.
      exists asked, probed, tail. rewrite <- !app_assoc. cbn [app].
      destruct c as [[]|e]; repeat split; auto.
    + exists asked, probed, []. rewrite <- !app_assoc. cbn [app].
      rewrite app_nil_r. repeat split; auto. constructor.
Qed.

(** One run of [downloadTikTok] never throws and makes, in this order,
    the probe, at most two provider requests, at most two HEAD probes of
    CDN candidates (and those only after both providers were asked), and
    at most one retrieval GET followed by at most one stream: seven
    events at most. *)
Theorem index_download_events (w : World) (dirname url : jsstring)
    (h : trace) :
  exists l c tail,
    Index.downloadTikTok w dirname url h
    = (Normal tt,
       h ++ Fetch probe_request :: asked_all l ++ probed_all c ++ tail)
    /\ length l <= 2 /\ length c <= 2
    /\ (c <> [] -> length l = 2)
    /\ RetrievalEvents tail
    /\ length (Fetch probe_request :: asked_all l ++ probed_all c ++ tail)
       <= 7.
Proof.
  destruct (index_download_shape w dirname url h)
    as [l [c [tail [E [L [C [P R]]]]]]].
  exists l, c, tail. repeat split; auto.
  cbn [length]. rewrite !length_app. unfold asked_all, probed_all.
  rewrite !length_map. destruct R; cbn [length]; lia.
Qed.

(** The script exits with code 1, having requested nothing, when there
    is no argument or the argument has no [tiktok.com] in it (so also
    when it is empty); otherwise it runs [downloadTikTok] on the argument
    as it was typed, untrimmed, and runs to its end. *)
Theorem script_checks_the_argument (w : World) (dirname : jsstring)
    (inputUrl : option jsstring) (h : trace) :
  ((forall url, inputUrl = Some url -> ~ Substring (lit "tiktok.com") url) ->
     Script.main w dirname inputUrl h = (Normal (Some 1%N), h))
  /\ (forall url, inputUrl = Some url ->
      Substring (lit "tiktok.com") url ->
      Script.main w dirname inputUrl h
      = (Normal None, snd (Index.downloadTikTok w dirname url h))).
Proof.
  split.
  - intros N. unfold Script.main. destruct inputUrl as [url|]; [|reflexivity].
    specialize (N url eq_refl). apply includes_false in N. rewrite N.
    destruct (truthy (VStr url)); reflexivity.
  - intros url -> S. unfold Script.main.
    assert (truthy (VStr url) = true) as ->.
    { destruct S as [a [b ->]]. destruct a; reflexivity. }
    apply includes_spec in S. rewrite S. cbn [negb]. run.
    destruct (index_download_shape w dirname url h)
      as [l [c [tail [-> _]]]].
    reflexivity.
Qed.

Lemma script_checks_the_argument_witness :
  Script.main w_second (lit "/app") (Some (lit "not-a-url")) []
  = (Normal (Some 1%N), [])
  /\ Script.main w_second (lit "/app") (Some url0) []
     = (Normal None, snd (Index.downloadTikTok w_second (lit "/app") url0 [])).
Proof.
  split.
  - apply (proj1 (script_checks_the_argument w_second (lit "/app")
                    (Some (lit "not-a-url")) [])).
    intros url E. inversion E. subst. apply includes_false. reflexivity.
  - apply (proj2 (script_checks_the_argument w_second (lit "/app")
                    (Some url0) []) url0 eq_refl).
    exists (lit "https://www."), (lit "/@u/video/111"). reflexivity.
Defined.

End CommandLine.

(* ------------------------------------------------------------------ *)
(** ** An unreachable network *)

Section Unreachable.

Import Worlds Scenarios.

(** When the probe request fails or is answered outside 200-299, both
    entry points stop there: the probe is the only request made, the
    service reports [Network connectivity issues detected], the command
    returns. *)
Theorem unreachable_network_stops_both (w : World)
    (url downloadPath : jsstring) (h : trace) :
  (forall res, net w h probe_request = Responds res ->
               ~ (200 <= status res <= 299)%N) ->
  Server.downloadTikTokVideo w url downloadPath h
  = (Normal (Server.Failure (lit "Network connectivity issues detected")),
     h ++ [Fetch probe_request])
  /\ Index.downloadTikTok w downloadPath url h
     = (Normal tt, h ++ [Fetch probe_request]).
Proof.
  intros N.
  assert (R : reachable w h = false).
  { unfold reachable. destruct (net w h probe_request) as [m|res] eqn:E;
      [reflexivity|].
    apply not_true_is_false. rewrite ok_spec. now apply N. }
  split; [now apply server_unreachable | now apply index_unreachable].
Qed.

Lemma unreachable_network_stops_both_witness :
  Server.downloadTikTokVideo w_down url0 (lit "/downloads") []
  = (Normal (Server.Failure (lit "Network connectivity issues detected")),
     [] ++ [Fetch probe_request])
  /\ Index.downloadTikTok w_down (lit "/downloads") url0 []
     = (Normal tt, [] ++ [Fetch probe_request]).
Proof.
  apply (unreachable_network_stops_both w_down url0 (lit "/downloads") []).
  intros res E. inversion E. subst. cbn. lia.
Defined.

End Unreachable.
